(** * RedditFlow: a shallow embedding of the extraction and load cores

    The development follows the Python sources
    [src/reddit/etl/extractor.py] and [src/reddit/etl/loader.py]:

    - Python [dict]s are [gmap]s (or, for parsed JSON, association lists that
      keep insertion order), lists are [list]s, [int]s are [Z];
    - a raised exception is the [Raise] branch of [result];
    - wall-clock time is a [Z] counting microseconds, the resolution of
      [datetime]; every [asyncio.sleep] is recorded in the [world];
    - the remote API, the clock, the file system and the document store are
      the environment: they are explicit arguments of the functions that
      touch them.

    All definitions come first; the statements proved about them follow. *)

From Stdlib Require Import ZArith Ascii String List Lia Bool.
From stdpp Require Import base gmap strings list fin_maps.

Set Warnings "-register-all".
Open Scope Z_scope.

(** ** Python values shared by the components *)

Module Py.

(** The built-in exceptions the modelled code can raise. *)
Inductive exn :=
| KeyError | TypeError | AttributeError | ValueError | IndexError
| OSError | JSONDecodeError.

Inductive result (A : Type) :=
| Ok (a : A)
| Raise (e : exn).
Arguments Ok {A} a.
Arguments Raise {A} e.

Definition bind {A B} (r : result A) (k : A -> result B) : result B :=
  match r with
  | Ok a => k a
  | Raise e => Raise e
  end.

(** [s.startswith(p)]. *)
Fixpoint startswith (p s : string) : bool :=
  match p with
  | EmptyString => true
  | String a p' =>
      match s with
      | EmptyString => false
      | String b s' => Ascii.eqb a b && startswith p' s'
      end
  end.

(** [sub in s] for two strings: substring test. *)
Fixpoint str_contains (sub s : string) : bool :=
  startswith sub s ||
  match s with
  | EmptyString => false
  | String _ s' => str_contains sub s'
  end.

(** [s.replace(old, new)] for a non-empty [old]: the occurrences are taken
    left to right and do not overlap; [skip] counts the characters of a
    matched occurrence that are still to be dropped. *)
Fixpoint replace_aux (old new : string) (skip : nat) (s : string) : string :=
  match s with
  | EmptyString => EmptyString
  | String c rest =>
      match skip with
      | S k => replace_aux old new k rest
      | O =>
          if startswith old s
          then new +:+ replace_aux old new (String.length old - 1) rest
          else String c (replace_aux old new 0 rest)
      end
  end.

Definition replace (old new s : string) : string := replace_aux old new 0 s.

(** Truth value of a string: the empty string is falsy. *)
Definition truthy (s : string) : bool := negb (String.eqb s "").

(** [s[n:]]. *)
Fixpoint drop_chars (n : nat) (s : string) : string :=
  match n, s with
  | O, _ => s
  | S n', String _ s' => drop_chars n' s'
  | S _, EmptyString => EmptyString
  end.

(** Values a parsed JSON document is made of. *)
Inductive json :=
| JNull
| JBool (b : bool)
| JInt (z : Z)
| JStr (s : string)
| JArr (items : list json)
| JObj (fields : list (string * json)).

End Py.

Import Py.

Notation "'let*' x ':=' r 'in' k" := (Py.bind r (fun x => k))
  (at level 10, x pattern, r at level 100, k at level 200).

(** ** Time *)

Module Clock.

(** Durations and instants are counted in microseconds. *)
Definition second : Z := 1000000.
Definition minute : Z := 60 * second.

(** The part of the outside world the extractor acts on: the wall clock,
    the durations handed to [asyncio.sleep] so far (oldest first) and the
    number of remote calls made. *)
Record world := { now : Z; sleeps : list Z; remote_calls : nat }.

Definition epoch : world := {| now := 0; sleeps := []; remote_calls := 0 |}.

(** [await asyncio.sleep(d)]: a non-positive delay returns at once. *)
Definition sleep (d : Z) (w : world) : world :=
  {| now := now w + Z.max 0 d;
     sleeps := sleeps w ++ [d];
     remote_calls := remote_calls w |}.

(** Time passing outside the modelled code. *)
Definition elapse (d : Z) (w : world) : world :=
  {| now := now w + d; sleeps := sleeps w; remote_calls := remote_calls w |}.

Definition called (w : world) : world :=
  {| now := now w; sleeps := sleeps w; remote_calls := S (remote_calls w) |}.

Definition total (durations : list Z) : Z :=
  foldr (fun d acc => Z.max 0 d + acc) 0 durations.

Definition total_wait (w : world) : Z := total (sleeps w).

End Clock.

(** ** Rate Governor: [RateLimiter] *)

Module RateLimiter.
Import Clock.

Record t := { rpm : Z; requests : list Z; total_requests : Z }.

Definition __init__ (requests_per_minute : Z) : t :=
  {| rpm := requests_per_minute; requests := []; total_requests := 0 |}.

(** [RateLimiter()]: the default of 60 requests per minute, the only way
    the extractor builds one. *)
Definition default : t := __init__ 60.

(** [wait_if_needed]. [self.requests[0]] raises [IndexError] on an empty
    list, which happens only for a ceiling that is not positive. The
    timestamp appended is [now], read before any sleep. *)
Definition wait_if_needed (self : t) (w : world) : result (t * world) :=
  let now := Clock.now w in
  let requests := filter (fun r => now - r < minute) (requests self) in
  let* w' :=
    (if bool_decide (rpm self <= Z.of_nat (length requests)) then
       match requests with
       | [] => Raise IndexError
       | oldest :: _ =>
           let sleep_time := minute - (now - oldest) in
           Ok (if bool_decide (0 < sleep_time) then sleep sleep_time w else w)
       end
     else Ok w) in
  Ok ({| rpm := rpm self;
         requests := requests ++ [now];
         total_requests := total_requests self + 1 |}, w').

(** A caller that issues its remote call the moment [wait_if_needed]
    returns and asks for the next slot [gap] microseconds later; the
    result is the list of the instants at which the calls were issued. *)
Fixpoint issue_times (gaps : list Z) (self : t) (w : world)
  : result (list Z) :=
  match gaps with
  | [] => Ok []
  | gap :: rest =>
      let* (self', w') := wait_if_needed self w in
      let issued := Clock.now w' in
      let* later := issue_times rest self' (elapse gap w') in
      Ok (issued :: later)
  end.

(** [n] calls back-to-back: no time passes between them. *)
Definition back_to_back (n : nat) (self : t) (w : world) : result (list Z) :=
  issue_times (repeat 0 n) self w.

(** The number of calls issued in the 60 seconds that begin at [start]. *)
Definition calls_in_window (start : Z) (times : list Z) : nat :=
  length (filter (fun t => start <= t < start + minute) times).

(** No rolling 60-second window holds more than [ceiling] calls. *)
Definition respects_ceiling (ceiling : Z) (times : list Z) : Prop :=
  forall start, Z.of_nat (calls_in_window start times) <= ceiling.

End RateLimiter.

(** ** Checkpoint Store: [CheckpointManager] *)

Module Checkpoint.

(** What is found at the path [self.file]. [Parses doc] is a file whose
    text [json.load] turns into [doc], and [json.dump] of [doc] leaves the
    path in that state; [Malformed] is a file whose text is not JSON,
    [Unreadable] one that cannot be opened. *)
Inductive file_state :=
| Absent
| Unreadable
| Malformed (raw : string)
| Parses (doc : json).

(** [os.path.exists(self.file)] *)
Definition path_exists (f : file_state) : bool :=
  match f with
  | Absent => false
  | _ => true
  end.

(** [with open(self.file, 'r') as f: json.load(f)] *)
Definition read_json (f : file_state) : result json :=
  match f with
  | Absent => Raise OSError
  | Unreadable => Raise OSError
  | Malformed _ => Raise JSONDecodeError
  | Parses doc => Ok doc
  end.

(** [{'processed_posts': [], 'last_run': None}] *)
Definition fresh : json :=
  JObj [("processed_posts", JArr []); ("last_run", JNull)].

(** [_load]: the bare [except:] turns every failure into a fresh start. *)
Definition _load (f : file_state) : json :=
  if path_exists f then
    match read_json f with
    | Ok doc => doc
    | Raise _ => fresh
    end
  else fresh.

(** The manager together with the file it owns. *)
Record t := { file : file_state; data : json }.

Definition __init__ (f : file_state) : t := {| file := f; data := _load f |}.

Fixpoint assoc (key : string) (fields : list (string * json)) : option json :=
  match fields with
  | [] => None
  | (k, v) :: rest => if String.eqb k key then Some v else assoc key rest
  end.

(** [d[key]] *)
Definition getitem (d : json) (key : string) : result json :=
  match d with
  | JObj fields =>
      match assoc key fields with
      | Some v => Ok v
      | None => Raise KeyError
      end
  | _ => Raise TypeError
  end.

Fixpoint set_field (key : string) (v : json) (fields : list (string * json))
  : list (string * json) :=
  match fields with
  | [] => [(key, v)]
  | (k, x) :: rest =>
      if String.eqb k key then (k, v) :: rest
      else (k, x) :: set_field key v rest
  end.

(** [d[key] = v] *)
Definition setitem (d : json) (key : string) (v : json) : result json :=
  match d with
  | JObj fields => Ok (JObj (set_field key v fields))
  | _ => Raise TypeError
  end.

(** [x.append(v)]: only lists have it. *)
Definition append (x v : json) : result json :=
  match x with
  | JArr items => Ok (JArr (items ++ [v]))
  | _ => Raise AttributeError
  end.

(** [post_id == x] for a string [post_id]. *)
Definition is_str (post_id : string) (x : json) : bool :=
  match x with
  | JStr s => String.eqb s post_id
  | _ => false
  end.

(** [post_id in x] for a string [post_id]: membership in a list, substring
    of a string, key of a dict; the other values are not iterable. *)
Definition contains (x : json) (post_id : string) : result bool :=
  match x with
  | JArr items => Ok (existsb (is_str post_id) items)
  | JStr s => Ok (str_contains post_id s)
  | JObj fields => Ok (existsb (fun kv => String.eqb (fst kv) post_id) fields)
  | JNull | JBool _ | JInt _ => Raise TypeError
  end.

(** The two statements of [save] that change [self.data]. The list is
    changed in place, so the dict shows the longer list; [now_iso] is
    [datetime.now().isoformat()]. An exception can only come from the
    first statement, before anything has changed. *)
Definition save_in_memory (now_iso post_id : string) (d : json) : result json :=
  let* posts := getitem d "processed_posts" in
  let* posts' := append posts (JStr post_id) in
  let* d1 := setitem d "processed_posts" posts' in
  setitem d1 "last_run" (JStr now_iso).

(** [save]: the whole state is then written over the file. *)
Definition save (now_iso post_id : string) (self : t) : result t :=
  let* d := save_in_memory now_iso post_id (data self) in
  Ok {| file := Parses d; data := d |}.

(** [post_id in d['processed_posts']] *)
Definition listed (post_id : string) (d : json) : result bool :=
  let* posts := getitem d "processed_posts" in
  contains posts post_id.

Definition is_processed (post_id : string) (self : t) : result bool :=
  listed post_id (data self).

Definition clear (self : t) : t := {| file := Absent; data := fresh |}.

(** The entries of the processed list (empty when there is no such list),
    and how often [post_id] occurs among them. *)
Definition processed_posts (self : t) : list json :=
  match getitem (data self) "processed_posts" with
  | Ok (JArr items) => items
  | _ => []
  end.

Definition occurrences (post_id : string) (self : t) : nat :=
  length (List.filter (is_str post_id) (processed_posts self)).

End Checkpoint.

(** ** Retry Policy: [RedditExtractor._api_call_with_retry] *)

Module Extractor.
Import Clock.

(** The state of a [RedditExtractor] that the modelled methods use. *)
Record t := {
  rate_limiter : option RateLimiter.t;
  checkpoint : option Checkpoint.t;
  stats : gmap string Z
}.

Definition initial_stats : gmap string Z :=
  list_to_map
    [("posts_fetched", 0); ("posts_processed", 0); ("comments_fetched", 0);
     ("errors", 0); ("skipped_checkpoints", 0); ("rate_limit_waits", 0)].

(** [__init__]: [f] is what the default checkpoint path holds. *)
Definition __init__ (use_checkpoints use_rate_limiting : bool)
    (f : Checkpoint.file_state) : t :=
  {| rate_limiter := if use_rate_limiting then Some RateLimiter.default else None;
     checkpoint := if use_checkpoints then Some (Checkpoint.__init__ f) else None;
     stats := initial_stats |}.

(** [self.stats[key] += n]; the six keys are created by [__init__] and
    never removed. *)
Definition incr (key : string) (n : Z) (self : t) : t :=
  {| rate_limiter := rate_limiter self;
     checkpoint := checkpoint self;
     stats := <[key := stats self !!! key + n]> (stats self) |}.

Definition with_rate_limiter (rl : RateLimiter.t) (self : t) : t :=
  {| rate_limiter := Some rl;
     checkpoint := checkpoint self;
     stats := stats self |}.

(** The failure classes the retry loop tells apart, in the order of its
    [except] clauses; [OtherFailure] is any other subclass of
    [Exception]. *)
Inductive failure :=
| TooManyRequests
| ServerError
| RequestException
| OtherFailure.

(** What an awaited call can raise: a failure, or a signal such as
    [KeyboardInterrupt] or [asyncio.CancelledError], which derives from
    [BaseException] only and is caught by none of the clauses. *)
Inductive raised :=
| Failure (f : failure)
| Signal.

Inductive outcome (V : Type) :=
| Returns (v : V)
| Raises (e : raised).
Arguments Returns {V} v.
Arguments Raises {V} e.

(** How [_api_call_with_retry] ends: it returns the value of the call
    ([Some]) or [None], or something propagates to the caller. A call that
    itself returns [None] is not told apart from giving up by the Python
    code; here it is [Returned (Some _)]. *)
Inductive ending (V : Type) :=
| Returned (v : option V)
| Propagated_signal
| Propagated (e : exn).
Arguments Returned {V} v.
Arguments Propagated_signal {V}.
Arguments Propagated {V} e.

(** [range(n)] *)
Definition range (n : Z) : list Z := map Z.of_nat (seq 0 (Z.to_nat n)).

(** The [for attempt in range(max_retries)] loop over the attempts that
    remain. [func attempt] is the outcome of the call made at that
    attempt. *)
Fixpoint retry_loop {V} (func : Z -> outcome V) (max_retries : Z)
    (attempts : list Z) (self : t) (w : world) : ending V * t * world :=
  match attempts with
  | [] => (Returned None, self, w)
  | attempt :: rest =>
      let w := called w in
      match func attempt with
      | Returns v => (Returned (Some v), self, w)
      | Raises (Failure TooManyRequests) =>
          let wait_time := 60 * (attempt + 1) in
          let self := incr "rate_limit_waits" 1 self in
          let w := sleep (wait_time * second) w in
          retry_loop func max_retries rest self w
      | Raises (Failure ServerError) =>
          let w := if bool_decide (attempt < max_retries - 1)
                   then sleep (30 * second) w else w in
          retry_loop func max_retries rest self w
      | Raises (Failure RequestException) =>
          let w := if bool_decide (attempt < max_retries - 1)
                   then sleep (2 ^ attempt * second) w else w in
          retry_loop func max_retries rest self w
      | Raises (Failure OtherFailure) =>
          if bool_decide (attempt = max_retries - 1)
          then (Returned None, incr "errors" 1 self, w)
          else retry_loop func max_retries rest self w
      | Raises Signal => (Propagated_signal, self, w)
      end
  end.

(** [_api_call_with_retry]: one pass through the rate limiter, outside
    any [try], then the loop. *)
Definition _api_call_with_retry {V} (func : Z -> outcome V) (max_retries : Z)
    (self : t) (w : world) : ending V * t * world :=
  match rate_limiter self with
  | Some rl =>
      match RateLimiter.wait_if_needed rl w with
      | Ok (rl', w') =>
          retry_loop func max_retries (range max_retries)
            (with_rate_limiter rl' self) w'
      | Raise e => (Propagated e, self, w)
      end
  | None => retry_loop func max_retries (range max_retries) self w
  end.

(** The ceiling of the limiter, when there is one, is positive: it is 60
    from [__init__] on. *)
Definition limiter_ok (self : t) : Prop :=
  forall rl, rate_limiter self = Some rl -> 0 < RateLimiter.rpm rl.

(** The waits after throttling failures on attempts 1 to [k]:
    60 s, 120 s, ... *)
Definition throttle_waits (k : nat) : list Z :=
  map (fun n => 60 * Z.of_nat n * second) (seq 1 k).

(** Sample calls: throttled twice, then answered; failing in a different
    way at each attempt. *)
Definition throttled_twice (attempt : Z) : outcome string :=
  if bool_decide (attempt < 2) then Raises (Failure TooManyRequests)
  else Returns "subreddit".

Definition always_failing (attempt : Z) : outcome string :=
  if bool_decide (attempt = 0) then Raises (Failure ServerError)
  else if bool_decide (attempt = 1) then Raises (Failure TooManyRequests)
  else Raises (Failure OtherFailure).

Definition interrupted (attempt : Z) : outcome string :=
  if bool_decide (attempt = 0) then Raises (Failure RequestException)
  else Raises Signal.

End Extractor.

(** ** Configuration: [config.py] *)

Module Config.
Definition FETCH_COMMENTS : bool := true.
End Config.

(** ** Extraction driver: [RedditExtractor.extract_posts_with_comments] *)

Module Driver.
Import Checkpoint.

(** A submission handle, and the records extracted. *)
Record submission := { sub_id : string }.
Record post_data := { reddit_id : string; title : string }.
Record comment_data :=
  { comment_id : string; submission_id : string; comment_depth : Z }.

(** The surroundings of a run, for the submission met at position [idx] of
    the loop (counted from 1, as [enumerate] does): the title read from
    the handle ([None] when reading its fields raises), what
    [get_submission_comments] returns for it (the empty list when the
    fetch fails: that method catches every exception), the local time
    when its checkpoint is written, and whether the checkpoint file can be
    opened for writing then. *)
Record remote := {
  title_of : nat -> submission -> option string;
  comments_of : nat -> submission -> list comment_data;
  now_iso : nat -> string;
  writable : nat -> bool
}.

(** [get_submission_data]: the record carries [submission.id] as
    [reddit_id]; a record with an empty [reddit_id] or [title] is
    rejected. Every failure ends as [None], after one error is counted. *)
Definition get_submission_data (r : remote) (idx : nat) (s : submission)
  : option post_data :=
  match title_of r idx s with
  | None => None
  | Some t =>
      let data := {| reddit_id := sub_id s; title := t |} in
      if negb (truthy (reddit_id data)) || negb (truthy (title data))
      then None
      else Some data
  end.

(** What the run does that can be observed. *)
Inductive event :=
| ItemExtracted (post_id : string)
| ItemFailed (post_id : string)
| CommentsExtracted (post_id : string)
| Checkpointed (post_id : string)
| CheckpointFailed (post_id : string).

#[global] Instance event_eq_dec : EqDecision event.
Proof. solve_decision. Defined.

(** Where the control is. [save] is cut at the two places where a crash
    leaves an intermediate state: after [self.data] has been changed, and
    after the file has been opened for writing (and so truncated). When
    the file cannot be opened, [save] raises there. *)
Inductive pc :=
| NextItem
| HaveFields (s : submission) (p : post_data)
| HaveComments (s : submission) (p : post_data)
| SaveInMemory
| SaveFileOpen
| Finished.

Record state := {
  pending : list submission;
  idx : nat;
  at_pc : pc;
  checkpoint_data : option json;
  disk : file_state;
  posts_data : list post_data;
  comments_data : list comment_data;
  errors : Z;
  trace : list event
}.

Definition goto (l : pc) (st : state) : state :=
  {| pending := pending st; idx := idx st; at_pc := l;
     checkpoint_data := checkpoint_data st; disk := disk st;
     posts_data := posts_data st; comments_data := comments_data st;
     errors := errors st; trace := trace st |}.

Definition emit (e : event) (st : state) : state :=
  {| pending := pending st; idx := idx st; at_pc := at_pc st;
     checkpoint_data := checkpoint_data st; disk := disk st;
     posts_data := posts_data st; comments_data := comments_data st;
     errors := errors st; trace := trace st ++ [e] |}.

Definition count_error (st : state) : state :=
  {| pending := pending st; idx := idx st; at_pc := at_pc st;
     checkpoint_data := checkpoint_data st; disk := disk st;
     posts_data := posts_data st; comments_data := comments_data st;
     errors := errors st + 1; trace := trace st |}.

Definition take_next (rest : list submission) (st : state) : state :=
  {| pending := rest; idx := S (idx st); at_pc := at_pc st;
     checkpoint_data := checkpoint_data st; disk := disk st;
     posts_data := posts_data st; comments_data := comments_data st;
     errors := errors st; trace := trace st |}.

Definition add_post (p : post_data) (st : state) : state :=
  {| pending := pending st; idx := idx st; at_pc := at_pc st;
     checkpoint_data := checkpoint_data st; disk := disk st;
     posts_data := posts_data st ++ [p]; comments_data := comments_data st;
     errors := errors st; trace := trace st |}.

Definition add_comments (cs : list comment_data) (st : state) : state :=
  {| pending := pending st; idx := idx st; at_pc := at_pc st;
     checkpoint_data := checkpoint_data st; disk := disk st;
     posts_data := posts_data st; comments_data := comments_data st ++ cs;
     errors := errors st; trace := trace st |}.

Definition set_checkpoint_data (d : json) (st : state) : state :=
  {| pending := pending st; idx := idx st; at_pc := at_pc st;
     checkpoint_data := Some d; disk := disk st;
     posts_data := posts_data st; comments_data := comments_data st;
     errors := errors st; trace := trace st |}.

Definition set_disk (f : file_state) (st : state) : state :=
  {| pending := pending st; idx := idx st; at_pc := at_pc st;
     checkpoint_data := checkpoint_data st; disk := f;
     posts_data := posts_data st; comments_data := comments_data st;
     errors := errors st; trace := trace st |}.

(** One step of the loop of [extract_posts_with_comments]. An exception
    inside the loop body is caught by its [except Exception], which counts
    an error and goes on with the next submission. The pause between two
    posts changes nothing of the state kept here. *)
Definition step (fetch_comments : bool) (r : remote) (st : state) : state :=
  match at_pc st with
  | NextItem =>
      match pending st with
      | [] => goto Finished st
      | s :: rest =>
          let st := take_next rest st in
          match get_submission_data r (idx st) s with
          | None => emit (ItemFailed (sub_id s)) (count_error st)
          | Some p =>
              goto (HaveFields s p)
                (emit (ItemExtracted (reddit_id p)) (add_post p st))
          end
      end
  | HaveFields s p =>
      if fetch_comments then
        goto (HaveComments s p)
          (emit (CommentsExtracted (sub_id s))
             (add_comments (comments_of r (idx st) s) st))
      else goto (HaveComments s p) st
  | HaveComments s p =>
      match checkpoint_data st with
      | None => goto NextItem st
      | Some d =>
          match save_in_memory (now_iso r (idx st)) (reddit_id p) d with
          | Ok d' =>
              goto SaveInMemory
                (emit (Checkpointed (reddit_id p)) (set_checkpoint_data d' st))
          | Raise _ =>
              goto NextItem
                (emit (CheckpointFailed (reddit_id p)) (count_error st))
          end
      end
  | SaveInMemory =>
    if writable r (idx st)
    then goto SaveFileOpen (set_disk (Malformed "") st)
    else goto NextItem (count_error st)
  | SaveFileOpen =>
      match checkpoint_data st with
      | Some d => goto NextItem (set_disk (Parses d) st)
      | None => goto NextItem st
      end
  | Finished => st
  end.

(** The start of a run over the fetched submissions: [f] is what the
    checkpoint path holds, read by [CheckpointManager()] when checkpoints
    are in use. *)
Definition start (use_checkpoints : bool) (f : file_state)
    (submissions : list submission) : state :=
  {| pending := submissions; idx := 0; at_pc := NextItem;
     checkpoint_data := if use_checkpoints then Some (_load f) else None;
     disk := f;
     posts_data := []; comments_data := [];
     errors := 0; trace := [] |}.

(** The state after [n] steps; a crash after [n] steps leaves [disk] as it
    is in that state. *)
Definition run (fetch_comments : bool) (r : remote) (n : nat) (st : state)
  : state :=
  Nat.iter n (step fetch_comments r) st.

(** Both extraction steps of the item have completed within the events
    [tr] (the comment step only when comment fetching is on). *)
Definition fully_done (fetch_comments : bool) (tr : list event)
    (post_id : string) : Prop :=
  ItemExtracted post_id ∈ tr
  /\ (fetch_comments = true -> CommentsExtracted post_id ∈ tr).

(** What holds at every point of a run that started with [f] at the
    checkpoint path: every [Checkpointed] event comes after the item's
    extraction events; an id listed in memory or in the durable file was
    listed from the start or has been checkpointed in this run; and
    between the steps of an item the events of the steps already made are
    in the trace. *)
Definition invariant (fetch_comments : bool) (f : file_state) (st : state)
  : Prop :=
  (forall before post_id after,
     trace st = before ++ Checkpointed post_id :: after ->
     fully_done fetch_comments before post_id)
  /\ (forall d post_id,
        checkpoint_data st = Some d ->
        listed post_id d = Ok true ->
        listed post_id (_load f) = Ok true \/ Checkpointed post_id ∈ trace st)
  /\ (forall post_id,
        listed post_id (_load (disk st)) = Ok true ->
        listed post_id (_load f) = Ok true \/ Checkpointed post_id ∈ trace st)
  /\ match at_pc st with
     | HaveFields s p =>
         reddit_id p = sub_id s /\ ItemExtracted (sub_id s) ∈ trace st
     | HaveComments s p =>
         reddit_id p = sub_id s /\ fully_done fetch_comments (trace st) (sub_id s)
     | _ => True
     end.

(** *** A sample run *)

Definition sample_remote : remote :=
  {| title_of := fun idx s => if Nat.eqb idx 2 then None else Some "a title";
     comments_of := fun idx s =>
       [{| comment_id := "c"; submission_id := sub_id s; comment_depth := 0 |}];
     now_iso := fun _ => "2025-01-01T00:00:00";
     writable := fun _ => true |}.

Definition sample_submissions : list submission :=
  [{| sub_id := "s1" |}; {| sub_id := "s2" |}; {| sub_id := "s3" |}].

End Driver.

(** ** Depth Resolver: [RedditExtractor._calculate_comment_depth] *)

Module Depth.

Record comment := { id : string; parent_id : string }.

Definition max_iterations : Z := 50.

(** The two local variables of the loop. *)
Record loop_state := { depth : Z; current_parent : string }.

(** [current_parent and current_parent.startswith('t1_')
     and depth < max_iterations] *)
Definition loop_guard (st : loop_state) : bool :=
  truthy (current_parent st)
  && startswith "t1_" (current_parent st)
  && (depth st <? max_iterations).

(** One execution of the loop body: [inl] goes round again, [inr] is
    [break]. *)
Definition loop_body (comment_map : gmap string string) (st : loop_state)
  : loop_state + loop_state :=
  let parent_id := replace "t1_" "" (current_parent st) in
  match comment_map !! parent_id with
  | Some p => inl {| depth := depth st + 1; current_parent := p |}
  | None => inr st
  end.

(** The [while] loop, with the number of body executions counted in
    [iters]. [None] only when [fuel] runs out. *)
Fixpoint while_loop (fuel : nat) (comment_map : gmap string string)
    (st : loop_state) (iters : nat) : option (loop_state * nat) :=
  if loop_guard st then
    match fuel with
    | O => None
    | S fuel' =>
        match loop_body comment_map st with
        | inl st' => while_loop fuel' comment_map st' (S iters)
        | inr st' => Some (st', S iters)
        end
    end
  else Some (st, iters).

(** Returns the depth together with the number of iterations made. *)
Definition _calculate_comment_depth (fuel : nat) (c : comment)
    (comment_map : gmap string string) : option (Z * nat) :=
  match while_loop fuel comment_map
          {| depth := 0; current_parent := parent_id c |} 0%nat with
  | Some (st, iters) => Some (depth st, iters)
  | None => None
  end.

(** *** What a parent reference denotes

    A reference [t1_<id>] denotes the comment [<id>]; any other reference
    (in practice [t3_<id>]) denotes the item itself. *)
Definition comment_ref (p : string) : option string :=
  if startswith "t1_" p then Some (drop_chars 3 p) else None.

(** The true length of the parent chain from reference [p] up to the item:
    defined exactly when the chain is acyclic and every comment on it is in
    the table. *)
Inductive chain_length (comment_map : gmap string string)
  : string -> nat -> Prop :=
| chain_item p :
    comment_ref p = None ->
    chain_length comment_map p 0
| chain_comment p cid q n :
    comment_ref p = Some cid ->
    comment_map !! cid = Some q ->
    chain_length comment_map q n ->
    chain_length comment_map p (S n).

(** Identifiers are base-36 on Reddit; what matters here is that the
    identifier inside a reference does not contain [t1_] again. *)
Definition clean_ref (p : string) : bool :=
  match comment_ref p with
  | Some cid => negb (str_contains "t1_" cid)
  | None => true
  end.

Definition clean_refs (c : comment) (comment_map : gmap string string) : Prop :=
  clean_ref (parent_id c) = true
  /\ map_Forall (fun _ p => clean_ref p = true) comment_map.



(** *** Sample comment tables *)

(** A thread of [n] comments, each the reply to the one before; the first
    replies to the item. Their identifiers are [a], [aa], [aaa], ... *)
Fixpoint ident (i : nat) : string :=
  match i with
  | O => "a"
  | S i' => String "a"%char (ident i')
  end.

Definition thread_parent (i : nat) : string :=
  match i with
  | O => "t3_post"
  | S i' => "t1_" +:+ ident i'
  end.

Definition thread (n : nat) : gmap string string :=
  list_to_map (map (fun i => (ident i, thread_parent i)) (seq 0 n)).

(** The reply to the last comment of a thread of [n]. *)
Definition reply_to_thread (n : nat) : comment :=
  {| id := "reply"; parent_id := thread_parent n |}.

(** A table whose only comment has an identifier containing [t1_]. *)
Definition odd_table : gmap string string := {[ "at1_b" := "t3_post" ]}.
Definition odd_reply : comment := {| id := "reply"; parent_id := "t1_at1_b" |}.

End Depth.

(* ================================================================== *)
(** * Properties *)
(* ================================================================== *)


(** ** Load Engine: [MongoLoader] *)

Module Loader.

(** The field values of the extracted records. *)
Inductive value :=
| VNone
| VBool (b : bool)
| VInt (z : Z)
| VStr (s : string).

#[global] Instance value_eq_dec : EqDecision value.
Proof. solve_decision. Defined.

(** A record, and a stored document, is a dict from field names to
    values. *)
Abbreviation doc := (gmap string value).

(** *** The document store

    A collection is the list of its documents in insertion order. The
    generated [_id] field is left out. *)

(** [UpdateOne({'reddit_id': key}, {'$set': fields}, upsert=True)] *)
Record UpdateOne := { filter_key : value; set_fields : doc }.

Inductive written := Upserted | Modified | Untouched.

(** The filter [{'reddit_id': key}]. *)
Definition matches (key : value) (d : doc) : bool :=
  bool_decide (d !! "reddit_id" = Some key).

(** One upsert: the first document that matches gets the fields set (its
    other fields stay); when none matches, a document made of the filter
    and the fields is inserted. *)
Fixpoint update_one (op : UpdateOne) (coll : list doc) : list doc * written :=
  match coll with
  | [] => ([set_fields op ∪ {[ "reddit_id" := filter_key op ]}], Upserted)
  | d :: rest =>
      if matches (filter_key op) d then
        let d' := set_fields op ∪ d in
        (d' :: rest, if decide (d' = d) then Untouched else Modified)
      else
        let '(rest', wr) := update_one op rest in
        (d :: rest', wr)
  end.

(** [collection.bulk_write(operations, ordered=False)], the operations
    taken in list order; the result carries [upserted_count] and
    [modified_count]. The store accepts every operation. *)
Fixpoint bulk_write (operations : list UpdateOne) (coll : list doc)
  : list doc * (Z * Z) :=
  match operations with
  | [] => (coll, (0, 0))
  | op :: rest =>
      let '(coll1, wr) := update_one op coll in
      let '(coll2, (upserted_count, modified_count)) := bulk_write rest coll1 in
      (coll2,
       (upserted_count + (if wr is Upserted then 1 else 0),
        modified_count + (if wr is Modified then 1 else 0)))
  end.

(** *** The loader *)

Record t := {
  batch_size : Z;
  stats : gmap string Z;
  posts_collection : list doc;
  comments_collection : list doc
}.

Definition initial_stats : gmap string Z :=
  list_to_map
    [("posts_inserted", 0); ("posts_updated", 0); ("comments_inserted", 0);
     ("comments_updated", 0); ("errors", 0)].

(** [MongoLoader(batch_size)], connected to a database that holds the
    given collections. *)
Definition __init__ (batch_size : Z) (posts comments : list doc) : t :=
  {| batch_size := batch_size;
     stats := initial_stats;
     posts_collection := posts;
     comments_collection := comments |}.

(** [stats[key] += n] *)
Definition incr (key : string) (n : Z) (stats : gmap string Z) : gmap string Z :=
  <[key := stats !!! key + n]> stats.

(** [range(0, stop, step)] for [0 <= stop]: a zero step is a
    [ValueError], a negative one gives the empty range. *)
Definition range_from_zero (stop step : Z) : result (list Z) :=
  if bool_decide (step = 0) then Raise ValueError
  else if bool_decide (step < 0) then Ok []
  else Ok (map (fun j => Z.of_nat j * step)
             (seq 0 (Z.to_nat ((stop + step - 1) / step)))).

(** [data[i : i + n]] for [0 <= i] and [0 <= n] *)
Definition slice {A} (data : list A) (i n : Z) : list A :=
  take (Z.to_nat n) (drop (Z.to_nat i) data).

(** The list comprehension that builds the operations of a batch;
    [record['reddit_id']] raises [KeyError] on a record without the key. *)
Fixpoint operations_of (batch : list doc) : result (list UpdateOne) :=
  match batch with
  | [] => Ok []
  | record :: rest =>
      match record !! "reddit_id" with
      | None => Raise KeyError
      | Some key =>
          let* operations := operations_of rest in
          Ok ({| filter_key := key; set_fields := record |} :: operations)
      end
  end.

(** The loop over the batch starts. An exception leaves the loop for the
    outer handler, which counts one error. *)
Fixpoint load_batches (starts : list Z) (data : list doc) (batch_size : Z)
    (inserted updated : string) (coll : list doc) (stats : gmap string Z)
  : list doc * gmap string Z :=
  match starts with
  | [] => (coll, stats)
  | i :: rest =>
      let batch := slice data i batch_size in
      match operations_of batch with
      | Raise _ => (coll, incr "errors" 1 stats)
      | Ok operations =>
          let '(coll', (upserted_count, modified_count)) :=
            bulk_write operations coll in
          load_batches rest data batch_size inserted updated coll'
            (incr updated modified_count (incr inserted upserted_count stats))
      end
  end.

(** The body shared by [load_posts] and [load_comments], which differ in
    the collection and in the names of the two counters. *)
Definition load (inserted updated : string) (data : list doc) (batch_size : Z)
    (coll : list doc) (stats : gmap string Z) : list doc * gmap string Z :=
  match data with
  | [] => (coll, stats)
  | _ :: _ =>
      match range_from_zero (Z.of_nat (length data)) batch_size with
      | Raise _ => (coll, incr "errors" 1 stats)
      | Ok starts =>
          load_batches starts data batch_size inserted updated coll stats
      end
  end.

Definition load_posts (posts_data : list doc) (self : t) : t :=
  let '(coll, stats) :=
    load "posts_inserted" "posts_updated" posts_data (batch_size self)
      (posts_collection self) (stats self) in
  {| batch_size := batch_size self;
     stats := stats;
     posts_collection := coll;
     comments_collection := comments_collection self |}.

Definition load_comments (comments_data : list doc) (self : t) : t :=
  let '(coll, stats) :=
    load "comments_inserted" "comments_updated" comments_data (batch_size self)
      (comments_collection self) (stats self) in
  {| batch_size := batch_size self;
     stats := stats;
     posts_collection := posts_collection self;
     comments_collection := coll |}.

(** One run of the load stage, as [run_etl_pipeline] sequences it (its
    own tests for empty lists repeat the ones inside the two methods). *)
Definition load_run (posts_data comments_data : list doc) (self : t) : t :=
  load_comments comments_data (load_posts posts_data self).

(** *** Keys *)

(** The record has the key field. *)
Definition has_key (record : doc) : Prop := is_Some (record !! "reddit_id").

(** The number of stored documents with the given key. *)
Definition count_key (key : value) (coll : list doc) : nat :=
  length (List.filter (matches key) coll).


(** *** Vocabulary for the proofs *)

(** The collection after one upsert, and after a list of them. *)
Definition upsert (op : UpdateOne) (coll : list doc) : list doc :=
  (update_one op coll).1.

Definition upsert_all (operations : list UpdateOne) (coll : list doc)
  : list doc :=
  foldl (fun c op => upsert op c) coll operations.

(** The operation built for a record that has the key: the fields it sets
    include the key it filters on. *)
Definition operation_of (record : doc) : UpdateOne :=
  {| filter_key := default VNone (record !! "reddit_id");
     set_fields := record |}.

Definition consistent (op : UpdateOne) : Prop :=
  set_fields op !! "reddit_id" = Some (filter_key op).

(** The operation finds document [d]. *)
Definition hits (d : doc) (op : UpdateOne) : bool :=
  matches (filter_key op) d.

(** Document [d] after the operations that find it. *)
Definition merged (operations : list UpdateOne) (d : doc) : doc :=
  foldl (fun d op => set_fields op ∪ d) d operations.

(** *** Sample data *)

Definition post (rid title : string) (score : Z) : doc :=
  list_to_map
    [("reddit_id", VStr rid); ("title", VStr title); ("score", VInt score)].

Definition sample_posts : list doc :=
  [post "p1" "first" 10; post "p2" "second" 3; post "p1" "first" 12].

Definition stale_store : list doc :=
  [list_to_map [("reddit_id", VStr "p2"); ("title", VStr "old"); ("seen", VBool true)]].


Definition comment (rid parent : string) (depth : Z) : doc :=
  list_to_map
    [("reddit_id", VStr rid); ("parent_id", VStr parent); ("depth", VInt depth)].

Definition sample_comments : list doc :=
  [comment "c1" "t3_p1" 0; comment "c2" "t1_c1" 1].

End Loader.

(** ** Statistics dictionaries held by reference: [get_stats] *)

Module Objects.

(** A statistics dict: counter name to count. *)
Abbreviation dict := (gmap string Z).

(** Python holds a dict by reference. The heap maps the address of each
    live dict to its contents; [self.stats] is an address. *)
Abbreviation heap := (gmap nat dict).

(** [d.copy()]: a new dict with the same items. The counts are integers,
    which cannot be changed in place, so nothing is shared. [None] only
    for an address that is not live. *)
Definition dict_copy (a : nat) (h : heap) : option (nat * heap) :=
  match h !! a with
  | Some items =>
      let a' := fresh (dom h) in
      Some (a', <[a' := items]> h)
  | None => None
  end.

(** Anything a caller can do to a dict it holds ([d[k] = v], [del d[k]],
    [d.clear()], [d.update(...)], ...): its items are replaced by a
    function of them. *)
Definition mutate (f : dict -> dict) (a : nat) (h : heap) : heap :=
  alter f a h.

(** [RedditExtractor.get_stats] and [MongoLoader.get_stats], for a
    component whose [self.stats] is at [stats_at]: both are
    [return self.stats.copy()]. *)
Definition extractor_get_stats (stats_at : nat) (h : heap)
  : option (nat * heap) :=
  dict_copy stats_at h.

Definition loader_get_stats (stats_at : nat) (h : heap)
  : option (nat * heap) :=
  dict_copy stats_at h.

(** A heap with the dicts of a fresh extractor (at 0) and of a fresh
    loader (at 1). *)
Definition sample_heap : heap :=
  <[0%nat := Extractor.initial_stats]> (<[1%nat := Loader.initial_stats]> ∅).

End Objects.

(** ** Comment extraction: the two loops of [get_submission_comments] and
    [get_comment_data] *)

Module CommentTree.

(** An entry of [submission.comments.list()] with the attributes the loops
    look at; [None] is an attribute the object does not have (a
    [MoreComments] object has no [body]). [entry_rest_ok] tells whether
    the other fields of [get_comment_data] can be built without an
    exception ([comment.author.name], [datetime.fromtimestamp] of
    [created_utc], [comment.subreddit.display_name]). *)
Record entry := {
  entry_id : option string;
  entry_parent_id : option string;
  entry_body : option string;
  entry_rest_ok : bool
}.

(** The record made by [get_comment_data], with the fields that depend on
    the arguments and on the attributes above. *)
Record comment_data := {
  reddit_id : string;
  submission_id : string;
  parent_id : string;
  depth : Z;
  body : string
}.

(** The first loop: [comment_map[comment.id] = comment.parent_id] for the
    entries that have both; a later entry with the same id overwrites. *)
Definition add_to_map (m : gmap string string) (e : entry) : gmap string string :=
  match entry_id e, entry_parent_id e with
  | Some i, Some p => <[i := p]> m
  | _, _ => m
  end.

Definition comment_map_of (comment_list : list entry) : gmap string string :=
  foldl add_to_map ∅ comment_list.

(** [self._calculate_comment_depth(comment, comment_map)] for a comment
    with the given [parent_id]. The loop makes at most 50 iterations, so
    that 50 units of fuel always give its result. *)
Definition depth_in (comment_map : gmap string string) (parent : string) : Z :=
  match Depth._calculate_comment_depth 50
          {| Depth.id := ""; Depth.parent_id := parent |} comment_map with
  | Some (d, _) => d
  | None => 0
  end.

(** One turn of the second loop: [None] is an entry that is skipped,
    because it has no [body], because reading [comment.parent_id] raises
    [AttributeError], because it is deeper than [MAX_COMMENT_DEPTH], or
    because [get_comment_data] caught an exception and returned [None]. *)
Definition extract_entry (max_comment_depth : option Z) (sid : string)
    (comment_map : gmap string string) (e : entry) : option comment_data :=
  match entry_body e with
  | None => None
  | Some text =>
      match entry_parent_id e with
      | None => None
      | Some parent =>
          let d := depth_in comment_map parent in
          if (if max_comment_depth is Some m then bool_decide (m < d) else false)
          then None
          else
            match entry_id e with
            | None => None
            | Some i =>
                if entry_rest_ok e
                then Some {| reddit_id := i; submission_id := sid;
                             parent_id := parent; depth := d; body := text |}
                else None
            end
      end
  end.

(** Both loops: the comments extracted from a listing, in its order. *)
Definition collect_comments (max_comment_depth : option Z) (sid : string)
    (comment_list : list entry) : list comment_data :=
  omap (extract_entry max_comment_depth sid (comment_map_of comment_list))
    comment_list.


(** A sample listing: two top-level comments, a reply, a reply to the
    reply, and a [MoreComments] object. *)
Definition sample_listing : list entry :=
  [ {| entry_id := Some "a"; entry_parent_id := Some "t3_post";
       entry_body := Some "first";
       entry_rest_ok := true |};
    {| entry_id := Some "b"; entry_parent_id := Some "t1_a";
       entry_body := Some "reply";
       entry_rest_ok := true |};
    {| entry_id := Some "more"; entry_parent_id := Some "t1_a";
       entry_body := None;
       entry_rest_ok := true |};
    {| entry_id := Some "c"; entry_parent_id := Some "t1_b";
       entry_body := Some "reply to reply";
       entry_rest_ok := true |};
    {| entry_id := Some "d"; entry_parent_id := Some "t3_post";
       entry_body := Some "second";
       entry_rest_ok := true |} ].

End CommentTree.

(** ** Fetching submissions: the loops of [get_submissions] *)

Module Listing.

(** What a subreddit yields: the ids of the submissions listed, in order,
    and whether the iteration raises after them (a failure of the remote
    side in the middle of the listing; a call that raises before anything
    is listed is the listing with no ids that breaks). *)
Record listing := { listed_ids : list string; breaks : bool }.

(** The inner loop, [async for submission in submissions], from the
    submissions kept and the skips counted so far. The flag tells whether
    an exception left the loop: from [is_processed], or from the iteration
    itself. What was appended and counted before stays. *)
Fixpoint scan (cp : option Checkpoint.t) (ids : list string) (breaks : bool)
    (all_submissions : list string) (skipped : Z) : list string * Z * bool :=
  match ids with
  | [] => (all_submissions, skipped, breaks)
  | sid :: rest =>
      match cp with
      | None => scan cp rest breaks (all_submissions ++ [sid]) skipped
      | Some c =>
          match Checkpoint.is_processed sid c with
          | Ok true => scan cp rest breaks all_submissions (skipped + 1)
          | Ok false => scan cp rest breaks (all_submissions ++ [sid]) skipped
          | Raise _ => (all_submissions, skipped, true)
          end
      end
  end.

(** The outer loop over the subreddits, given for each the result of
    [_api_call_with_retry(self.reddit.subreddit, name)]: [None] when it
    came back empty, which is logged and skipped. An exception inside the
    body counts one error and goes on with the next subreddit. *)
Fixpoint fetch (cp : option Checkpoint.t) (subreddits : list (option listing))
    (all_submissions : list string) (skipped errors : Z)
  : list string * Z * Z :=
  match subreddits with
  | [] => (all_submissions, skipped, errors)
  | None :: rest => fetch cp rest all_submissions skipped errors
  | Some l :: rest =>
      let '(all_submissions', skipped', raised) :=
        scan cp (listed_ids l) (breaks l) all_submissions skipped in
      fetch cp rest all_submissions' skipped'
        (if raised then errors + 1 else errors)
  end.

(** [get_submissions]: the submissions to process and the statistics
    after it. *)
Definition get_submissions (subreddits : list (option listing))
    (self : Extractor.t) : list string * Extractor.t :=
  let '(all_submissions, skipped, errors) :=
    fetch (Extractor.checkpoint self) subreddits []
      (Extractor.stats self !!! "skipped_checkpoints")
      (Extractor.stats self !!! "errors") in
  (all_submissions,
   {| Extractor.rate_limiter := Extractor.rate_limiter self;
      Extractor.checkpoint := Extractor.checkpoint self;
      Extractor.stats :=
        <["posts_fetched" := Z.of_nat (length all_submissions)]>
          (<["errors" := errors]>
             (<["skipped_checkpoints" := skipped]> (Extractor.stats self))) |}).



(** All the ids the subreddits listed, in order. *)
Definition all_listed (subreddits : list (option listing)) : list string :=
  concat (omap (fun o => listed_ids <$> o) subreddits).


(** A checkpoint that lists [abc], and two subreddits. *)
Definition sample_extractor : Extractor.t :=
  {| Extractor.rate_limiter := Some RateLimiter.default;
     Extractor.checkpoint :=
       Some (Checkpoint.__init__
               (Checkpoint.Parses
                  (JObj [("processed_posts", JArr [JStr "abc"]);
                         ("last_run", JStr "T")])));
     Extractor.stats := Extractor.initial_stats |}.

Definition sample_subreddits : list (option listing) :=
  [ Some {| listed_ids := ["p1"; "abc"; "p2"]; breaks := false |};
    None;
    Some {| listed_ids := ["p3"]; breaks := false |} ].

End Listing.

(** ** What a complete run of the driver extracts *)

Module DriverRuns.
Import Driver.

(** The posts of the submissions whose fields can be read, in order; [i]
    is the number of submissions met before. *)
Fixpoint extracted (r : remote) (i : nat) (submissions : list submission)
  : list post_data :=
  match submissions with
  | [] => []
  | s :: rest =>
      match get_submission_data r (S i) s with
      | Some p => p :: extracted r (S i) rest
      | None => extracted r (S i) rest
      end
  end.

(** What one submission does to the checkpoint, in memory and on disk:
    nothing when its fields cannot be read, when checkpoints are off or
    when [save] raises before changing anything; otherwise the id is
    appended in memory, and written when the file can be opened. *)
Definition item_checkpoint (r : remote) (i : nat) (s : submission)
    (cp : option json) (dk : Checkpoint.file_state)
  : option json * Checkpoint.file_state :=
  match get_submission_data r i s, cp with
  | Some p, Some d =>
      match Checkpoint.save_in_memory (now_iso r i) (reddit_id p) d with
      | Ok d' => (Some d', if writable r i then Checkpoint.Parses d' else dk)
      | Raise _ => (cp, dk)
      end
  | _, _ => (cp, dk)
  end.

Fixpoint checkpoints (r : remote) (i : nat) (submissions : list submission)
    (cp : option json) (dk : Checkpoint.file_state)
  : option json * Checkpoint.file_state :=
  match submissions with
  | [] => (cp, dk)
  | s :: rest =>
      let '(cp', dk') := item_checkpoint r (S i) s cp dk in
      checkpoints r (S i) rest cp' dk'
  end.

(** A checkpoint state on which [save] works: an object whose
    [processed_posts] is a list. *)
Definition well_formed (d : json) : Prop :=
  exists fields items,
    d = JObj fields
    /\ Checkpoint.assoc "processed_posts" fields = Some (JArr items).

End DriverRuns.

(* ================================================================== *)
(** * Properties *)
(* ================================================================== *)

(* ================================================================== *)
(** * Properties *)
(* ================================================================== *)

(** ** Strings *)

Lemma replace_t1_prefix (s : string) :
  replace "t1_" "" (String "t"%char (String "1"%char (String "_"%char s)))
  = replace "t1_" "" s.
Proof. reflexivity. Qed.

Lemma startswith_t1_inv p :
  startswith "t1_" p = true ->
  p = String "t"%char (String "1"%char (String "_"%char (drop_chars 3 p))).
Proof.
  destruct p as [|a [|b [|c p]]]; cbn [startswith];
    rewrite ?andb_false_r; try discriminate.
  intros H. repeat (apply andb_true_iff in H as [?%Ascii.eqb_eq H]).
  subst. reflexivity.
Qed.

Lemma startswith_t1_truthy p : startswith "t1_" p = true -> truthy p = true.
Proof. destruct p; [discriminate | reflexivity]. Qed.

Lemma replace_clean s : str_contains "t1_" s = false -> replace "t1_" "" s = s.
Proof.
  unfold replace. induction s as [|c s IH]; [reflexivity|].
  intros H. cbn [str_contains] in H. apply orb_false_iff in H as [H1 H2].
  cbn [replace_aux]. rewrite H1. f_equal. auto.
Qed.

(** ** Rate Governor *)

Section RateGovernor.
Import Clock RateLimiter.

(** With a ceiling of one call per minute, the second call sleeps a minute
    and the third goes out together with it. *)
Example one_per_minute_three_calls :
  back_to_back 3 (__init__ 1) epoch = Ok [0; minute; minute].
Proof. vm_compute. reflexivity. Qed.

(** C1 fails on the code. With the default ceiling of 60, 121 calls issued
    back-to-back from time 0 go out as 60 calls at time 0 and 61 calls at
    60 s: call 61 sleeps for a minute but the timestamp recorded for it is
    the one read before the sleep, so that at 60 s every recorded
    timestamp is a minute old, the window is pruned empty and 60 further
    calls pass without waiting. The minute that begins at 60 s holds 61
    calls. *)
Theorem default_limiter_lets_61_calls_into_one_minute :
  exists times,
    back_to_back 121 default epoch = Ok times
    /\ calls_in_window minute times = 61%nat
    /\ ~ respects_ceiling (rpm default) times.
Proof.
  eexists. split; [vm_compute; reflexivity|]. split.
  - vm_compute. reflexivity.
  - intros H. specialize (H minute). vm_compute in H. now apply H.
Qed.

(** Leaving a millisecond between the calls changes nothing: the calls are
    issued 1 ms apart from 0 s on and again from 60 s on, and the minute
    that begins at 60 s still holds 61 of them. *)
Example default_limiter_one_millisecond_apart :
  exists times,
    issue_times (repeat 1000 121) default epoch = Ok times
    /\ calls_in_window minute times = 61%nat.
Proof.
  eexists. split; [vm_compute; reflexivity|]. vm_compute. reflexivity.
Qed.

End RateGovernor.

(** ** Checkpoint Store *)

Section CheckpointStore.
Import Checkpoint.

Lemma assoc_set_field_eq key v fields :
  assoc key (set_field key v fields) = Some v.
Proof.
  induction fields as [|[k x] rest IH]; cbn.
  - now rewrite String.eqb_refl.
  - destruct (String.eqb k key) eqn:E; cbn; now rewrite E.
Qed.

Lemma assoc_set_field_ne key key' v fields :
  key <> key' -> assoc key (set_field key' v fields) = assoc key fields.
Proof.
  intros Hne. induction fields as [|[k x] rest IH]; cbn.
  - destruct (String.eqb_spec key' key); congruence.
  - destruct (String.eqb_spec k key'); cbn.
    + subst. destruct (String.eqb_spec key' key); congruence.
    + now rewrite IH.
Qed.

(** What a successful [save_in_memory] starts from and produces. *)
Lemma save_in_memory_inv now_iso post_id d d' :
  save_in_memory now_iso post_id d = Ok d' ->
  exists fields items,
    d = JObj fields
    /\ assoc "processed_posts" fields = Some (JArr items)
    /\ d' = JObj (set_field "last_run" (JStr now_iso)
                   (set_field "processed_posts"
                      (JArr (items ++ [JStr post_id])) fields)).
Proof.
  unfold save_in_memory, getitem. destruct d as [| | | | |fields]; try discriminate.
  cbn. destruct (assoc "processed_posts" fields) as [posts|] eqn:Ha;
    [|discriminate].
  cbn. destruct posts as [| | | |items|]; try discriminate.
  cbn. intros [= <-]. now exists fields, items.
Qed.

Lemma processed_after_save now_iso post_id fields items :
  getitem (JObj (set_field "last_run" (JStr now_iso)
                   (set_field "processed_posts"
                      (JArr (items ++ [JStr post_id])) fields)))
    "processed_posts"
  = Ok (JArr (items ++ [JStr post_id])).
Proof.
  unfold getitem.
  rewrite assoc_set_field_ne by discriminate.
  now rewrite assoc_set_field_eq.
Qed.

Lemma is_str_refl post_id : is_str post_id (JStr post_id) = true.
Proof. apply String.eqb_refl. Qed.

Lemma existsb_snoc_is_str post_id items :
  existsb (is_str post_id) (items ++ [JStr post_id]) = true.
Proof.
  rewrite existsb_app. cbn [existsb]. rewrite is_str_refl. apply orb_true_r.
Qed.

Lemma filter_snoc_is_str post_id items :
  length (List.filter (is_str post_id) (items ++ [JStr post_id]))
  = S (length (List.filter (is_str post_id) items)).
Proof.
  rewrite List.filter_app, length_app. cbn [List.filter].
  rewrite is_str_refl. cbn [length]. lia.
Qed.

(** C2, as the code has it: [save] appends without looking, so that each
    call adds one more entry for the id (two calls leave two more than
    before); after a single [save] the id is reported as processed, by the
    manager itself and by a manager reloaded from the file. *)
Theorem save_appends_and_marks_processed
    (self s1 : t) (post_id now1 now2 : string) :
  save now1 post_id self = Ok s1 ->
  is_processed post_id s1 = Ok true
  /\ is_processed post_id (__init__ (file s1)) = Ok true
  /\ occurrences post_id s1 = S (occurrences post_id self)
  /\ exists s2,
       save now2 post_id s1 = Ok s2
       /\ occurrences post_id s2 = S (S (occurrences post_id self)).
Proof.
  unfold save. destruct (save_in_memory now1 post_id (data self)) as [d1|e] eqn:H1;
    [|discriminate].
  cbn. intros [= <-].
  destruct (save_in_memory_inv _ _ _ _ H1) as (fields & items & Hd & Ha & ->).
  assert (occurrences post_id self
          = length (List.filter (is_str post_id) items)) as Hocc.
  { unfold occurrences, processed_posts, getitem. now rewrite Hd, Ha. }
  repeat split.
  - unfold is_processed, listed. cbn [data]. rewrite processed_after_save. cbn.
    now rewrite existsb_snoc_is_str.
  - unfold is_processed, listed, __init__. cbn [data file _load path_exists read_json].
    rewrite processed_after_save. cbn. now rewrite existsb_snoc_is_str.
  - rewrite Hocc. unfold occurrences, processed_posts. cbn [data].
    now rewrite processed_after_save, filter_snoc_is_str.
  - cbn [data]. unfold save_in_memory. rewrite processed_after_save. cbn.
    eexists. split; [reflexivity|].
    rewrite Hocc. unfold occurrences, processed_posts. cbn [data].
    now rewrite processed_after_save, !filter_snoc_is_str.
Qed.

Lemma save_appends_and_marks_processed_witness :
  is_processed "abc" {| file := Parses (JObj [("processed_posts", JArr [JStr "abc"]); ("last_run", JStr "T1")]);
                        data := JObj [("processed_posts", JArr [JStr "abc"]); ("last_run", JStr "T1")] |}
  = Ok true.
Proof.
  apply (save_appends_and_marks_processed
           (__init__ Absent) _ "abc" "T1" "T2").
  reflexivity.
Defined.

(** C2 as stated fails: marking [abc] twice on a fresh store leaves two
    entries for it in the processed list. *)
Lemma save_twice_duplicates_counterexample :
  exists s1 s2,
    save "T1" "abc" (__init__ Absent) = Ok s1
    /\ save "T2" "abc" s1 = Ok s2
    /\ processed_posts s2 = [JStr "abc"; JStr "abc"]
    /\ occurrences "abc" s2 = 2%nat
    /\ ~ NoDup (processed_posts s2).
Proof.
  do 2 eexists. split; [reflexivity|]. split; [reflexivity|].
  split; [reflexivity|]. split; [reflexivity|].
  cbn. intros H. apply NoDup_cons_1_1 in H. apply H. left.
Qed.

(** C8: when reading and parsing the checkpoint file fails (no file, a
    file that cannot be opened, a file that is not JSON), the manager
    starts from [{'processed_posts': [], 'last_run': None}], without
    raising, and reports every id as not processed. *)
Theorem load_failure_starts_fresh (f : file_state) :
  (forall doc, read_json f <> Ok doc) ->
  data (__init__ f) = fresh
  /\ forall post_id, is_processed post_id (__init__ f) = Ok false.
Proof.
  intros Hfail.
  assert (_load f = fresh) as Hl.
  { unfold _load. destruct f as [| | raw | doc]; cbn; try reflexivity.
    now destruct (Hfail doc). }
  unfold __init__, is_processed, listed. cbn [data]. rewrite Hl.
  split; [reflexivity | intros post_id; reflexivity].
Qed.

Lemma load_failure_starts_fresh_witness :
  data (__init__ (Malformed "{'processed_posts': [")) = fresh
  /\ forall post_id,
       is_processed post_id (__init__ (Malformed "{'processed_posts': ["))
       = Ok false.
Proof.
  apply (load_failure_starts_fresh (Malformed "{'processed_posts': [")).
  intros doc. discriminate.
Defined.

End CheckpointStore.

(** ** Retry Policy *)

Section RetryPolicy.
Import Clock Extractor.

Lemma total_app l1 l2 : total (l1 ++ l2) = total l1 + total l2.
Proof. unfold total. induction l1 as [|d l1 IH]; cbn; lia. Qed.

Lemma total_nonneg l : 0 <= total l.
Proof. unfold total. induction l as [|d l IH]; cbn; lia. Qed.

Lemma throttle_waits_S k :
  throttle_waits (S k) = throttle_waits k ++ [60 * Z.of_nat (S k) * second].
Proof. unfold throttle_waits. now rewrite seq_S, map_app. Qed.

Lemma total_throttle_waits k :
  total (throttle_waits k) = 30 * Z.of_nat k * (Z.of_nat k + 1) * second.
Proof.
  induction k as [|k IH]; [reflexivity|].
  rewrite throttle_waits_S, total_app, IH. unfold total, second. cbn [foldr].
  lia.
Qed.

Lemma throttle_waits_shift k :
  map (fun a => 60 * (Z.of_nat a + 1) * second) (seq 0 k) = throttle_waits k.
Proof.
  unfold throttle_waits. rewrite <- seq_shift, map_map.
  apply map_ext. intros a. f_equal. lia.
Qed.

(** The limiter of an extractor always lets the caller through: it may
    sleep, it makes no remote call and keeps its ceiling. *)
Lemma wait_if_needed_returns rl w :
  0 < RateLimiter.rpm rl ->
  exists rl' w' governor_wait,
    RateLimiter.wait_if_needed rl w = Ok (rl', w')
    /\ RateLimiter.rpm rl' = RateLimiter.rpm rl
    /\ sleeps w' = sleeps w ++ governor_wait
    /\ remote_calls w' = remote_calls w.
Proof.
  intros Hpos. unfold RateLimiter.wait_if_needed. cbv zeta.
  set (reqs := filter _ (RateLimiter.requests rl)).
  destruct (bool_decide_reflect (RateLimiter.rpm rl <= Z.of_nat (length reqs)))
    as [Hfull|Hfull].
  - destruct reqs as [|oldest reqs'] eqn:Hr; [cbn in Hfull; lia|].
    cbn [Py.bind].
    destruct (bool_decide_reflect (0 < minute - (now w - oldest))).
    + do 3 eexists. repeat split; reflexivity.
    + do 2 eexists. exists []. rewrite app_nil_r. repeat split; reflexivity.
  - cbn [Py.bind]. do 2 eexists. exists []. rewrite app_nil_r.
    repeat split; reflexivity.
Qed.

Section Loop.
Context {V : Type} (func : Z -> outcome V) (max_retries : Z).

(** When every remaining attempt fails, whatever the class, the loop
    returns [None], having made every one of the attempts. The attempts
    that remain are [i], [i+1], ... up to [max_retries - 1]. *)
Lemma retry_loop_all_fail (n : nat) : forall (i : nat) self w,
  Z.of_nat (i + n) = Z.max 0 max_retries ->
  (forall a, Z.of_nat i <= a < max_retries ->
             exists f, func a = Raises (Failure f)) ->
  exists self' w',
    retry_loop func max_retries (map Z.of_nat (seq i n)) self w
    = (Returned None, self', w')
    /\ remote_calls w' = (remote_calls w + n)%nat.
Proof.
  induction n as [|n IH]; intros i self w Hn Hfail.
  - exists self, w. split; [reflexivity | cbn; lia].
  - destruct (Hfail (Z.of_nat i)) as [f Hf]; [lia|].
    assert (forall a, Z.of_nat (S i) <= a < max_retries ->
                      exists f, func a = Raises (Failure f))
      as Hrest by (intros a Ha; apply Hfail; lia).
    assert (Z.of_nat (S i + n) = Z.max 0 max_retries) as Hn' by lia.
    cbn [seq map retry_loop]. rewrite Hf.
    destruct f.
    + edestruct (IH (S i)) as (self' & w' & -> & Hc); [exact Hn'|exact Hrest|].
      exists self', w'. split; [reflexivity|]. rewrite Hc. cbn. lia.
    + edestruct (IH (S i)) as (self' & w' & -> & Hc); [exact Hn'|exact Hrest|].
      exists self', w'. split; [reflexivity|]. rewrite Hc.
      destruct (bool_decide _); cbn; lia.
    + edestruct (IH (S i)) as (self' & w' & -> & Hc); [exact Hn'|exact Hrest|].
      exists self', w'. split; [reflexivity|]. rewrite Hc.
      destruct (bool_decide _); cbn; lia.
    + destruct (bool_decide_reflect (Z.of_nat i = max_retries - 1))
        as [Hlast|Hmore].
      * do 2 eexists. split; [reflexivity|]. cbn. lia.
      * edestruct (IH (S i)) as (self' & w' & -> & Hc); [exact Hn'|exact Hrest|].
        exists self', w'. split; [reflexivity|]. rewrite Hc. cbn. lia.
Qed.

(** A run of throttled attempts: each one is a remote call, a wait of
    60 s times its 1-based number, and one more [rate_limit_waits]. *)
Lemma retry_loop_throttled (l : list nat) : forall rest self w,
  (forall a, a ∈ l -> func (Z.of_nat a) = Raises (Failure TooManyRequests)) ->
  exists self' w',
    retry_loop func max_retries (map Z.of_nat l ++ rest) self w
    = retry_loop func max_retries rest self' w'
    /\ sleeps w'
       = sleeps w ++ map (fun a => 60 * (Z.of_nat a + 1) * second) l
    /\ remote_calls w' = (remote_calls w + length l)%nat
    /\ stats self' !!! "rate_limit_waits"
       = stats self !!! "rate_limit_waits" + Z.of_nat (length l).
Proof.
  induction l as [|a l IH]; intros rest self w Hl.
  - exists self, w. cbn. rewrite app_nil_r.
    repeat split; [lia | lia].
  - cbn [map app retry_loop]. rewrite Hl by left.
    destruct (IH rest (incr "rate_limit_waits" 1 self)
                (sleep (60 * (Z.of_nat a + 1) * second) (called w)))
      as (self' & w' & -> & Hs & Hc & Hst).
    { intros b Hb. apply Hl. now right. }
    exists self', w'. split; [reflexivity|].
    rewrite Hs, Hc, Hst. cbn [sleep called sleeps remote_calls incr stats length map].
    rewrite <- app_assoc. cbn [app].
    rewrite lookup_total_insert_eq.
    repeat split; lia.
Qed.

End Loop.

(** C5: a call that fails at every one of its [max_retries] attempts,
    whatever the failure class of each, ends with [None] returned to the
    caller: nothing propagates, and exactly [max_retries] attempts have
    been made. *)
Theorem retry_exhaustion_returns_none {V : Type}
    (func : Z -> outcome V) (max_retries : Z) (self : t) (w : world) :
  limiter_ok self ->
  (forall attempt, 0 <= attempt < max_retries ->
                   exists f, func attempt = Raises (Failure f)) ->
  exists self' w',
    _api_call_with_retry func max_retries self w = (Returned None, self', w')
    /\ remote_calls w' = (remote_calls w + Z.to_nat max_retries)%nat.
Proof.
  intros Hok Hfail. unfold _api_call_with_retry, range.
  destruct (rate_limiter self) as [rl|] eqn:Hrl.
  - destruct (wait_if_needed_returns rl w (Hok rl Hrl))
      as (rl' & w1 & pre & -> & _ & _ & Hc1).
    destruct (retry_loop_all_fail func max_retries (Z.to_nat max_retries) 0%nat
                (with_rate_limiter rl' self) w1)
      as (self' & w' & -> & Hc); [lia | exact Hfail |].
    exists self', w'. split; [reflexivity | lia].
  - destruct (retry_loop_all_fail func max_retries (Z.to_nat max_retries) 0%nat
                self w)
      as (self' & w' & -> & Hc); [lia | exact Hfail |].
    exists self', w'. split; [reflexivity | lia].
Qed.

Lemma retry_exhaustion_returns_none_witness :
  exists self' w',
    _api_call_with_retry always_failing 3 (__init__ true true Checkpoint.Absent) epoch
    = (Returned None, self', w')
    /\ remote_calls w' = (remote_calls epoch + Z.to_nat 3)%nat.
Proof.
  apply (retry_exhaustion_returns_none always_failing 3
           (__init__ true true Checkpoint.Absent) epoch).
  - intros rl [= <-]. reflexivity.
  - intros attempt Ha.
    assert (attempt = 0 \/ attempt = 1 \/ attempt = 2) as [-> | [-> | ->]] by lia;
      eexists; reflexivity.
Defined.

(** The run of [always_failing]: a server error (wait 30 s), a throttling
    failure on attempt 2 (wait 120 s), another failure on the last
    attempt (count one error, give up). *)
Example always_failing_run :
  let '(r, self', w') :=
    _api_call_with_retry always_failing 3
      (__init__ true true Checkpoint.Absent) epoch in
  r = Returned None
  /\ sleeps w' = [30 * second; 120 * second]
  /\ stats self' !! "errors" = Some 1
  /\ stats self' !! "rate_limit_waits" = Some 1.
Proof. vm_compute. repeat split; reflexivity. Qed.

(** C6: when the first [k] attempts are throttled and attempt [k+1]
    answers, with [k < max_retries], the call returns that answer after
    [k+1] attempts; the throttling failure on attempt [n] was followed by
    a wait of [60 * n] seconds (these are the last [k] sleeps, after what
    the limiter may have slept), so that the time waited has grown by at
    least 60 + 120 + ... + 60k seconds. When all [max_retries] attempts
    are throttled they use the bound up and [None] is returned. *)
Theorem throttling_waits_then_succeeds {V : Type}
    (func : Z -> outcome V) (max_retries : Z) (self : t) (w : world) :
  limiter_ok self ->
  (forall (k : nat) (v : V),
     Z.of_nat k < max_retries ->
     (forall attempt, 0 <= attempt < Z.of_nat k ->
                      func attempt = Raises (Failure TooManyRequests)) ->
     func (Z.of_nat k) = Returns v ->
     exists self' w' governor_wait,
       _api_call_with_retry func max_retries self w
       = (Returned (Some v), self', w')
       /\ sleeps w' = sleeps w ++ governor_wait ++ throttle_waits k
       /\ remote_calls w' = (remote_calls w + k + 1)%nat
       /\ total_wait w' - total_wait w
          >= 30 * Z.of_nat k * (Z.of_nat k + 1) * second
       /\ stats self' !!! "rate_limit_waits"
          = stats self !!! "rate_limit_waits" + Z.of_nat k)
  /\ ((forall attempt, 0 <= attempt < max_retries ->
                       func attempt = Raises (Failure TooManyRequests)) ->
      exists self' w' governor_wait,
        _api_call_with_retry func max_retries self w
        = (Returned None, self', w')
        /\ sleeps w'
           = sleeps w ++ governor_wait ++ throttle_waits (Z.to_nat max_retries)
        /\ remote_calls w' = (remote_calls w + Z.to_nat max_retries)%nat).
Proof.
  intros Hok.
  assert (exists self1 w1 governor_wait,
            _api_call_with_retry func max_retries self w
            = retry_loop func max_retries (range max_retries) self1 w1
            /\ sleeps w1 = sleeps w ++ governor_wait
            /\ remote_calls w1 = remote_calls w
            /\ stats self1 = stats self) as Hgov.
  { unfold _api_call_with_retry.
    destruct (rate_limiter self) as [rl|] eqn:Hrl.
    - destruct (wait_if_needed_returns rl w (Hok rl Hrl))
        as (rl' & w1 & pre & -> & _ & Hs & Hc).
      exists (with_rate_limiter rl' self), w1, pre. auto.
    - exists self, w, []. rewrite app_nil_r. auto. }
  destruct Hgov as (self1 & w1 & pre & Hcall & Hs1 & Hc1 & Hst1).
  split.
  - intros k v Hk Hthr Hret.
    assert (range max_retries
            = map Z.of_nat (seq 0 k)
              ++ Z.of_nat k :: map Z.of_nat (seq (S k) (Z.to_nat max_retries - S k)))
      as Hrange.
    { unfold range.
      replace (Z.to_nat max_retries)
        with (k + S (Z.to_nat max_retries - S k))%nat by lia.
      rewrite seq_app, map_app. cbn [seq map]. do 4 f_equal. lia. }
    destruct (retry_loop_throttled func max_retries (seq 0 k)
                (Z.of_nat k :: map Z.of_nat (seq (S k) (Z.to_nat max_retries - S k)))
                self1 w1)
      as (self' & w' & Hloop & Hs & Hc & Hst).
    { intros a Ha. apply Hthr. apply list_elem_of_In, in_seq in Ha. lia. }
    rewrite length_seq in Hc, Hst. rewrite throttle_waits_shift in Hs.
    exists self', (called w'), pre.
    split; [|split; [|split; [|split]]].
    + rewrite Hcall, Hrange, Hloop. cbn [retry_loop]. now rewrite Hret.
    + cbn [called sleeps]. now rewrite Hs, Hs1, <- app_assoc.
    + cbn [called remote_calls]. lia.
    + unfold total_wait. cbn [called sleeps].
      rewrite Hs, Hs1, !total_app, total_throttle_waits.
      pose proof (total_nonneg pre). lia.
    + now rewrite Hst, Hst1.
  - intros Hthr.
    destruct (retry_loop_throttled func max_retries
                (seq 0 (Z.to_nat max_retries)) [] self1 w1)
      as (self' & w' & Hloop & Hs & Hc & Hst).
    { intros a Ha. apply Hthr. apply list_elem_of_In, in_seq in Ha. lia. }
    rewrite length_seq in Hc. rewrite throttle_waits_shift in Hs.
    rewrite app_nil_r in Hloop.
    exists self', w', pre. split; [|split].
    + rewrite Hcall. unfold range. now rewrite Hloop.
    + now rewrite Hs, Hs1, <- app_assoc.
    + lia.
Qed.

Lemma throttling_waits_then_succeeds_witness :
  exists self' w' governor_wait,
    _api_call_with_retry throttled_twice 3
      (__init__ true true Checkpoint.Absent) epoch
    = (Returned (Some "subreddit"), self', w')
    /\ sleeps w' = sleeps epoch ++ governor_wait ++ throttle_waits 2
    /\ remote_calls w' = (remote_calls epoch + 2 + 1)%nat
    /\ total_wait w' - total_wait epoch
       >= 30 * Z.of_nat 2 * (Z.of_nat 2 + 1) * second
    /\ stats self' !!! "rate_limit_waits"
       = stats (__init__ true true Checkpoint.Absent) !!! "rate_limit_waits"
         + Z.of_nat 2.
Proof.
  apply (throttling_waits_then_succeeds throttled_twice 3
           (__init__ true true Checkpoint.Absent) epoch).
  - intros rl [= <-]. reflexivity.
  - lia.
  - intros attempt Ha.
    assert (attempt = 0 \/ attempt = 1) as [-> | ->] by lia; reflexivity.
  - reflexivity.
Defined.

Example throttled_twice_run :
  let '(r, self', w') :=
    _api_call_with_retry throttled_twice 3
      (__init__ true true Checkpoint.Absent) epoch in
  r = Returned (Some "subreddit")
  /\ sleeps w' = [60 * second; 120 * second]
  /\ remote_calls w' = 3%nat.
Proof. vm_compute. repeat split; reflexivity. Qed.

(** A signal is not a failure: it is caught by none of the clauses and
    reaches the caller (here after a request error and its wait of
    [2 ** 0] seconds). *)
Example interrupted_run :
  let '(r, self', w') :=
    _api_call_with_retry interrupted 3
      (__init__ true true Checkpoint.Absent) epoch in
  r = Propagated_signal /\ sleeps w' = [1 * second].
Proof. vm_compute. split; reflexivity. Qed.

End RetryPolicy.
(** ** Extraction driver *)

Section ExtractionDriver.
Import Checkpoint Driver.

(** After a [save] the ids listed are the ones listed before and the id
    saved. *)
Lemma listed_after_save now_iso post_id d d' other :
  save_in_memory now_iso post_id d = Ok d' ->
  listed other d' = Ok true ->
  other = post_id \/ listed other d = Ok true.
Proof.
  intros Hsave.
  destruct (save_in_memory_inv _ _ _ _ Hsave) as (fields & items & -> & Ha & ->).
  unfold listed. rewrite processed_after_save. unfold getitem. rewrite Ha.
  cbn [Py.bind contains]. rewrite existsb_app. cbn [existsb].
  intros [= H]. apply orb_true_iff in H as [H|H].
  - right. now rewrite H.
  - left. rewrite orb_false_r in H. symmetry. now apply String.eqb_eq.
Qed.

Lemma get_submission_data_id r i s p :
  get_submission_data r i s = Some p -> reddit_id p = sub_id s.
Proof.
  unfold get_submission_data. destruct (title_of r i s); [|discriminate].
  destruct (_ || _); [discriminate|]. now intros [= <-].
Qed.

Lemma fully_done_mono fetch_comments tr tr' post_id :
  tr ⊆ tr' ->
  fully_done fetch_comments tr post_id -> fully_done fetch_comments tr' post_id.
Proof. unfold fully_done. intros Hsub [H1 H2]. split; auto. Qed.

(** Appending an event keeps the ordering, provided a [Checkpointed] event
    is appended only for an item that is fully done. *)
Lemma ordering_emit fetch_comments tr e :
  (forall before post_id after,
     tr = before ++ Checkpointed post_id :: after ->
     fully_done fetch_comments before post_id) ->
  (forall post_id, e = Checkpointed post_id ->
                   fully_done fetch_comments tr post_id) ->
  forall before post_id after,
    tr ++ [e] = before ++ Checkpointed post_id :: after ->
    fully_done fetch_comments before post_id.
Proof.
  intros Htr He before post_id after.
  induction after as [|x rest _] using rev_ind; intros Heq.
  - apply app_inj_tail in Heq as [Htr' He']. subst tr. now apply He.
  - rewrite app_comm_cons, app_assoc in Heq.
    apply app_inj_tail in Heq as [Htr' _]. eapply Htr. exact Htr'.
Qed.

Lemma invariant_start fetch_comments use_checkpoints f submissions :
  invariant fetch_comments f (start use_checkpoints f submissions).
Proof.
  unfold invariant, start. cbn. split; [|split; [|split]].
  - intros before post_id after H. now destruct before.
  - intros d post_id Hd Hl. left. destruct use_checkpoints; congruence.
  - auto.
  - exact I.
Qed.

Lemma invariant_step fetch_comments r f st :
  invariant fetch_comments f st ->
  invariant fetch_comments f (step fetch_comments r st).
Proof.
  intros (Hord & Hmem & Hdisk & Hpc). unfold step.
  destruct (at_pc st) as [|s p|s p| | |] eqn:Hat.
  - (* NextItem *)
    destruct (pending st) as [|s rest].
    { unfold invariant. cbn. auto. }
    destruct (get_submission_data r _ s) as [p|] eqn:Hget.
    + unfold invariant. cbn. split; [|split; [|split]].
      * apply ordering_emit; [exact Hord | discriminate].
      * intros d post_id Hd Hl. destruct (Hmem d post_id Hd Hl); auto.
        right. now apply elem_of_app; left.
      * intros post_id Hl. destruct (Hdisk post_id Hl); auto.
        right. now apply elem_of_app; left.
      * pose proof (get_submission_data_id _ _ _ _ Hget) as E.
        split; [exact E|]. rewrite E. apply elem_of_app. right. left.
    + unfold invariant. cbn. rewrite Hat. split; [|split; [|split]]; auto.
      * apply ordering_emit; [exact Hord | discriminate].
      * intros d post_id Hd Hl. destruct (Hmem d post_id Hd Hl); auto.
        right. now apply elem_of_app; left.
      * intros post_id Hl. destruct (Hdisk post_id Hl); auto.
        right. now apply elem_of_app; left.
  - (* HaveFields *)
    destruct Hpc as [E Hitem]. destruct fetch_comments eqn:Hfc.
    + unfold invariant. cbn. split; [|split; [|split]].
      * apply ordering_emit; [exact Hord | discriminate].
      * intros d post_id Hd Hl. destruct (Hmem d post_id Hd Hl); auto.
        right. now apply elem_of_app; left.
      * intros post_id Hl. destruct (Hdisk post_id Hl); auto.
        right. now apply elem_of_app; left.
      * split; [exact E|]. split.
        -- now apply elem_of_app; left.
        -- intros _. apply elem_of_app. right. left.
    + unfold invariant. cbn. split; [|split; [|split]]; auto.
      split; [exact E|]. split; [exact Hitem | discriminate].
  - (* HaveComments *)
    destruct Hpc as [E Hdone].
    destruct (checkpoint_data st) as [d|] eqn:Hcp.
    2:{ unfold invariant. cbn. rewrite Hcp. auto. }
    destruct (save_in_memory _ (reddit_id p) d) as [d'|e] eqn:Hsave.
    + unfold invariant. cbn. split; [|split; [|split]]; auto.
      * apply ordering_emit; [exact Hord|].
        intros post_id [= <-]. now rewrite E.
      * intros d0 post_id [= <-] Hl.
        destruct (listed_after_save _ _ _ _ _ Hsave Hl) as [->|Hl'].
        -- right. apply elem_of_app. right. left.
        -- destruct (Hmem d post_id eq_refl Hl'); auto.
           right. now apply elem_of_app; left.
      * intros post_id Hl. destruct (Hdisk post_id Hl); auto.
        right. now apply elem_of_app; left.
    + unfold invariant. cbn. rewrite Hcp. split; [|split; [|split]]; auto.
      * apply ordering_emit; [exact Hord | discriminate].
      * intros d0 post_id [= <-] Hl. destruct (Hmem d post_id eq_refl Hl); auto.
        right. now apply elem_of_app; left.
      * intros post_id Hl. destruct (Hdisk post_id Hl); auto.
        right. now apply elem_of_app; left.
  - (* SaveInMemory: the file is opened and truncated, or cannot be opened *)
    destruct (writable r (idx st)).
    + unfold invariant. cbn. split; [|split; [|split]]; auto.
      intros post_id Hl. discriminate.
    + unfold invariant. cbn. auto.
  - (* SaveFileOpen: the dump completes *)
    destruct (checkpoint_data st) as [d|] eqn:Hcp.
    + unfold invariant. cbn. rewrite Hcp. split; [|split; [|split]]; auto.
      intros post_id Hl. now apply (Hmem d).
    + unfold invariant. cbn. rewrite Hcp. auto.
  - (* Finished *)
    unfold invariant. rewrite Hat. auto.
Qed.

Lemma invariant_run fetch_comments r f n st :
  invariant fetch_comments f st ->
  invariant fetch_comments f (run fetch_comments r n st).
Proof.
  intros H. unfold run. induction n as [|n IH]; [exact H|].
  cbn [Nat.iter]. now apply invariant_step.
Qed.

Lemma checkpointed_is_fully_done fetch_comments f st post_id :
  invariant fetch_comments f st ->
  Checkpointed post_id ∈ trace st ->
  fully_done fetch_comments (trace st) post_id.
Proof.
  intros (Hord & _) Hin.
  apply list_elem_of_split in Hin as (before & after & Heq).
  apply (fully_done_mono _ before); [|now apply (Hord _ _ after)].
  rewrite Heq. intros x Hx. now apply elem_of_app; left.
Qed.

(** C9: at every point of a run (after any number [n] of steps, so also
    where a crash stops it), each [Checkpointed] event of an item comes
    after the event of its field extraction and, when comments are
    fetched, after the event of its comment extraction; and an id that the
    checkpoint lists, in the file as a restart would load it or in memory,
    was listed before the run began or belongs to an item whose extraction
    steps have both completed. *)
Theorem checkpoint_follows_extraction
    (fetch_comments : bool) (r : remote) (use_checkpoints : bool)
    (f : file_state) (submissions : list submission) (n : nat) :
  (forall before post_id after,
     trace (run fetch_comments r n (start use_checkpoints f submissions))
     = before ++ Checkpointed post_id :: after ->
     ItemExtracted post_id ∈ before
     /\ (fetch_comments = true -> CommentsExtracted post_id ∈ before))
  /\ (forall post_id,
        is_processed post_id
          (__init__ (disk (run fetch_comments r n
                             (start use_checkpoints f submissions))))
        = Ok true ->
        is_processed post_id (__init__ f) = Ok true
        \/ fully_done fetch_comments
             (trace (run fetch_comments r n
                       (start use_checkpoints f submissions))) post_id)
  /\ (forall d post_id,
        checkpoint_data (run fetch_comments r n
                           (start use_checkpoints f submissions)) = Some d ->
        listed post_id d = Ok true ->
        is_processed post_id (__init__ f) = Ok true
        \/ fully_done fetch_comments
             (trace (run fetch_comments r n
                       (start use_checkpoints f submissions))) post_id).
Proof.
  pose proof (invariant_run fetch_comments r f n _
                (invariant_start fetch_comments use_checkpoints f submissions))
    as Hinv.
  set (st := run fetch_comments r n (start use_checkpoints f submissions)) in *.
  pose proof Hinv as (Hord & Hmem & Hdisk & _).
  split; [|split].
  - intros before post_id after Heq. exact (Hord before post_id after Heq).
  - intros post_id Hl. destruct (Hdisk post_id Hl) as [H0|Hcp]; [now left|].
    right. now apply (checkpointed_is_fully_done _ f).
  - intros d post_id Hd Hl. destruct (Hmem d post_id Hd Hl) as [H0|Hcp];
      [now left|].
    right. now apply (checkpointed_is_fully_done _ f).
Qed.

(** Three submissions, the second of which cannot be read: the posts kept
    are the first and the third, one error is counted, and the file lists
    the two ids. *)
Example sample_run_complete :
  let st := run Config.FETCH_COMMENTS sample_remote 20 (start true Absent sample_submissions) in
  at_pc st = Finished
  /\ map reddit_id (posts_data st) = ["s1"; "s3"]
  /\ errors st = 1
  /\ is_processed "s1" (__init__ (disk st)) = Ok true
  /\ is_processed "s2" (__init__ (disk st)) = Ok false
  /\ is_processed "s3" (__init__ (disk st)) = Ok true.
Proof. vm_compute. repeat split; reflexivity. Qed.

(** A crash after two steps: the first item has its fields and its
    comments, nothing is checkpointed yet. A crash after four: [save] has
    opened the file and not yet written it. *)
Example sample_run_crashes :
  let st2 := run Config.FETCH_COMMENTS sample_remote 2 (start true Absent sample_submissions) in
  let st4 := run Config.FETCH_COMMENTS sample_remote 4 (start true Absent sample_submissions) in
  trace st2 = [ItemExtracted "s1"; CommentsExtracted "s1"]
  /\ disk st2 = Absent
  /\ trace st4 = [ItemExtracted "s1"; CommentsExtracted "s1"; Checkpointed "s1"]
  /\ disk st4 = Malformed ""
  /\ is_processed "s1" (__init__ (disk st4)) = Ok false.
Proof. vm_compute. repeat split; reflexivity. Qed.

End ExtractionDriver.
(** ** Depth Resolver *)

Section DepthLoop.
Import Depth.
Variable comment_map : gmap string string.

Lemma guard_true_iff st :
  loop_guard st = true <->
  startswith "t1_" (current_parent st) = true /\ depth st < max_iterations.
Proof.
  unfold loop_guard. rewrite !andb_true_iff, Z.ltb_lt. split.
  - intros [[_ ?] ?]; auto.
  - intros [? ?]; auto using startswith_t1_truthy.
Qed.

Lemma guard_false_item st :
  startswith "t1_" (current_parent st) = false -> loop_guard st = false.
Proof. unfold loop_guard. intros ->. now rewrite andb_false_r. Qed.

Lemma guard_false_ceiling st :
  max_iterations <= depth st -> loop_guard st = false.
Proof.
  unfold loop_guard. intros H. apply andb_false_iff. right.
  now apply Z.ltb_ge.
Qed.

(** The key the loop looks up for a clean comment reference is the
    identifier the reference carries. *)
Lemma clean_key p cid :
  comment_ref p = Some cid -> clean_ref p = true ->
  startswith "t1_" p = true /\ replace "t1_" "" p = cid.
Proof.
  unfold clean_ref, comment_ref.
  destruct (startswith "t1_" p) eqn:Hp; [|discriminate].
  intros [= <-] Hc. split; [reflexivity|].
  rewrite (startswith_t1_inv p Hp) at 1. rewrite replace_t1_prefix.
  apply replace_clean. now apply negb_true_iff.
Qed.

(** The loop always stops: with fuel for the iterations that remain below
    the ceiling it returns, the depth never exceeds the ceiling, and at
    most [max_iterations - depth] further iterations are made. *)
Lemma while_loop_total fuel : forall st iters,
  0 <= depth st <= max_iterations ->
  max_iterations - depth st <= Z.of_nat fuel ->
  exists st' iters',
    while_loop fuel comment_map st iters = Some (st', iters')
    /\ depth st <= depth st' <= max_iterations
    /\ Z.of_nat iters' <= Z.of_nat iters + (max_iterations - depth st).
Proof.
  induction fuel as [|fuel IH]; intros st iters Hd Hf.
  - assert (loop_guard st = false) as Hg by (apply guard_false_ceiling; lia).
    exists st, iters. cbn. rewrite Hg. repeat split; lia.
  - cbn [while_loop]. destruct (loop_guard st) eqn:Hg.
    + apply guard_true_iff in Hg as [_ Hlt]. unfold loop_body.
      destruct (comment_map !! _) as [p|].
      * destruct (IH {| depth := depth st + 1; current_parent := p |} (S iters))
          as (st' & it' & -> & Hd' & Hi'); cbn [depth] in *; try lia.
        exists st', it'. repeat split; lia.
      * exists st, (S iters). repeat split; lia.
    + exists st, iters. repeat split; lia.
Qed.

(** On a chain of true length [n] the loop adds [n] to the depth, unless
    the ceiling stops it first. *)
Lemma while_loop_chain p n :
  chain_length comment_map p n ->
  map_Forall (fun _ q => clean_ref q = true) comment_map ->
  clean_ref p = true ->
  forall d iters fuel,
    0 <= d <= max_iterations ->
    max_iterations - d <= Z.of_nat fuel ->
    exists st' iters',
      while_loop fuel comment_map {| depth := d; current_parent := p |} iters
      = Some (st', iters')
      /\ depth st' = Z.min (d + Z.of_nat n) max_iterations.
Proof.
  intros Hch Hmap. induction Hch as [p Hp | p cid q n Hp Hq Hch IH];
    intros Hc d iters fuel Hd Hf.
  - exists {| depth := d; current_parent := p |}, iters.
    destruct fuel; cbn [while_loop]; rewrite guard_false_item;
      cbn [current_parent depth]; try (split; [reflexivity | lia]);
      unfold comment_ref in Hp; now destruct (startswith "t1_" p).
  - destruct (clean_key p cid Hp Hc) as [Hs Hk].
    destruct (Z.eq_dec d max_iterations) as [->|Hne].
    + exists {| depth := max_iterations; current_parent := p |}, iters.
      destruct fuel; cbn [while_loop]; rewrite guard_false_ceiling;
        cbn [depth]; try lia; (split; [reflexivity | lia]).
    + destruct fuel as [|fuel]; [lia|].
      cbn [while_loop].
      assert (loop_guard {| depth := d; current_parent := p |} = true) as ->.
      { apply guard_true_iff. cbn. split; [assumption | lia]. }
      unfold loop_body. cbn [current_parent depth]. rewrite Hk, Hq.
      destruct (IH (Hmap _ _ Hq) (d + 1) (S iters) fuel)
        as (st' & it' & -> & Hd'); try lia.
      exists st', it'. split; [reflexivity | lia].
Qed.


End DepthLoop.

Section DepthResolver.
Import Depth.

(** C3, as the code has it: on a valid forest whose identifiers do not
    contain [t1_], the computed depth is the true length of the parent
    chain, capped at the ceiling of 50; a comment whose direct parent is
    the item gets depth 0 (on every table, with any fuel). *)
Theorem depth_is_chain_length_up_to_ceiling
    (c : comment) (comment_map : gmap string string) :
  (comment_ref (parent_id c) = None ->
   forall fuel, _calculate_comment_depth fuel c comment_map = Some (0, 0%nat))
  /\ (forall n fuel,
        clean_refs c comment_map ->
        chain_length comment_map (parent_id c) n ->
        (50 <= fuel)%nat ->
        exists iters,
          _calculate_comment_depth fuel c comment_map
          = Some (Z.min (Z.of_nat n) 50, iters)).
Proof.
  split.
  - intros Hp fuel. unfold _calculate_comment_depth.
    assert (loop_guard {| depth := 0; current_parent := parent_id c |} = false)
      as Hg.
    { apply guard_false_item. cbn [current_parent]. unfold comment_ref in Hp.
      now destruct (startswith "t1_" (parent_id c)). }
    destruct fuel; cbn [while_loop]; now rewrite Hg.
  - intros n fuel [Hc Hmap] Hch Hf. unfold _calculate_comment_depth.
    destruct (while_loop_chain comment_map _ _ Hch Hmap Hc 0 0%nat fuel)
      as (st' & it' & -> & Hd); unfold max_iterations in *; try lia.
    exists it'. now rewrite Hd.
Qed.

Lemma depth_is_chain_length_up_to_ceiling_witness :
  exists iters,
    _calculate_comment_depth 50 (reply_to_thread 3) (thread 3)
    = Some (Z.min (Z.of_nat 3) 50, iters).
Proof.
  apply (depth_is_chain_length_up_to_ceiling (reply_to_thread 3) (thread 3)).
  - split; [reflexivity|].
    refine (bool_decide_unpack _ _). vm_compute. exact I.
  - repeat (eapply chain_comment; [reflexivity | vm_compute; reflexivity | ]).
    apply chain_item. reflexivity.
  - lia.
Defined.

(** C3 as stated fails twice over. A thread 51 deep is a valid forest, yet
    the reply to its last comment gets depth 50, not 51. And when a
    comment identifier contains [t1_], the lookup key loses that part and
    the parent is not found: depth 0 instead of 1. *)
Lemma depth_is_chain_length_counterexample :
  (chain_length (thread 51) (parent_id (reply_to_thread 51)) 51
   /\ clean_refs (reply_to_thread 51) (thread 51)
   /\ _calculate_comment_depth 60 (reply_to_thread 51) (thread 51)
      = Some (50, 50%nat))
  /\ (chain_length odd_table (parent_id odd_reply) 1
      /\ _calculate_comment_depth 60 odd_reply odd_table = Some (0, 1%nat)).
Proof.
  split; [split; [|split] | split].
  - repeat (eapply chain_comment; [reflexivity | vm_compute; reflexivity | ]).
    apply chain_item. reflexivity.
  - split; [reflexivity|].
    refine (bool_decide_unpack _ _). vm_compute. exact I.
  - vm_compute. reflexivity.
  - eapply chain_comment; [reflexivity | vm_compute; reflexivity | ].
    apply chain_item. reflexivity.
  - vm_compute. reflexivity.
Qed.



(** A two-comment cycle, and a reference into the void. *)
Example depth_on_cycle :
  _calculate_comment_depth 50 {| id := "x"; parent_id := "t1_y" |}
    (<["x" := "t1_y"]> (<["y" := "t1_x"]> ∅))
  = Some (50, 50%nat).
Proof. vm_compute. reflexivity. Qed.

Example depth_on_missing_parent :
  _calculate_comment_depth 50 (reply_to_thread 3) (delete "a" (thread 3))
  = Some (2, 3%nat).
Proof. vm_compute. reflexivity. Qed.

End DepthResolver.

(** ** Load Engine *)

Section DocumentStore.
Import Loader.

Lemma union_absorb (m d : doc) : m ∪ (m ∪ d) = m ∪ d.
Proof. now rewrite (assoc_L (∪)), (idemp_L (∪)). Qed.

Lemma merged_union ops : forall d, merged ops d = merged ops ∅ ∪ d.
Proof.
  unfold merged. induction ops as [|op ops IH]; intros d; cbn [foldl].
  - now rewrite (left_id_L ∅ (∪)).
  - rewrite (IH (_ ∪ d)), (IH (_ ∪ ∅)), (right_id_L ∅ (∪)).
    now rewrite (assoc_L (∪)).
Qed.

Lemma merged_idemp ops d : merged ops (merged ops d) = merged ops d.
Proof.
  rewrite (merged_union ops d), (merged_union ops (_ ∪ d)).
  apply union_absorb.
Qed.

Lemma merged_first ops (m : doc) :
  merged ops (m ∪ merged ops m) = merged ops m.
Proof.
  rewrite (merged_union ops m), (merged_union ops (m ∪ _)).
  rewrite (assoc_L (∪) _ m). apply (idemp_L (∪)).
Qed.

Lemma matches_spec key d : matches key d = true <-> d !! "reddit_id" = Some key.
Proof. unfold matches. apply bool_decide_eq_true. Qed.

(** An operation that finds a document leaves its key as it is. *)
Lemma key_after_hit op d :
  consistent op -> hits d op = true ->
  (set_fields op ∪ d) !! "reddit_id" = d !! "reddit_id".
Proof.
  unfold consistent, hits. intros Hc Hh. apply matches_spec in Hh.
  rewrite lookup_union_l' by (rewrite Hc; eauto). congruence.
Qed.

Lemma hits_ext d d' :
  d' !! "reddit_id" = d !! "reddit_id" -> forall op, hits d' op = hits d op.
Proof. intros E op. unfold hits, matches. now rewrite E. Qed.

Lemma matches_ext d d' :
  d' !! "reddit_id" = d !! "reddit_id" ->
  forall key, matches key d' = matches key d.
Proof. intros E key. unfold matches. now rewrite E. Qed.

Lemma filter_ext_hits d d' ops :
  d' !! "reddit_id" = d !! "reddit_id" ->
  List.filter (hits d') ops = List.filter (hits d) ops
  /\ List.filter (fun op => negb (hits d' op)) ops
     = List.filter (fun op => negb (hits d op)) ops.
Proof.
  intros E. split; apply List.filter_ext; intros op;
    now rewrite (hits_ext _ _ E).
Qed.

Lemma key_after_merged ops : forall d,
  Forall consistent ops ->
  merged (List.filter (hits d) ops) d !! "reddit_id" = d !! "reddit_id".
Proof.
  induction ops as [|op ops IH]; intros d Hc; [reflexivity|].
  inversion_clear Hc as [|? ? Hop Hops]. cbn [List.filter].
  destruct (hits d op) eqn:Hh; [|auto].
  unfold merged. cbn [foldl]. fold (merged (List.filter (hits d) ops)
                                      (set_fields op ∪ d)).
  pose proof (key_after_hit op d Hop Hh) as E.
  destruct (filter_ext_hits d (set_fields op ∪ d) ops E) as [<- _].
  now rewrite IH.
Qed.

Lemma upsert_nil op :
  consistent op -> upsert op [] = [set_fields op].
Proof.
  unfold consistent, upsert. intros Hc. cbn. f_equal.
  apply map_eq. intros i. rewrite lookup_union.
  destruct (decide (i = "reddit_id")) as [->|Hne].
  - now rewrite Hc, lookup_singleton_eq.
  - rewrite lookup_singleton_ne by congruence.
    now destruct (set_fields op !! i).
Qed.

Lemma upsert_hit op d rest :
  hits d op = true -> upsert op (d :: rest) = (set_fields op ∪ d) :: rest.
Proof. unfold hits, upsert. cbn. now intros ->. Qed.

Lemma upsert_miss op d rest :
  hits d op = false -> upsert op (d :: rest) = d :: upsert op rest.
Proof.
  unfold hits, upsert. cbn. intros ->. now destruct (update_one op rest).
Qed.

(** The operations split by the first document: those that find it change
    it and nothing else, the others never see it. *)
Lemma upsert_all_cons ops : forall d rest,
  Forall consistent ops ->
  upsert_all ops (d :: rest)
  = merged (List.filter (hits d) ops) d
    :: upsert_all (List.filter (fun op => negb (hits d op)) ops) rest.
Proof.
  induction ops as [|op ops IH]; intros d rest Hc; [reflexivity|].
  inversion_clear Hc as [|? ? Hop Hops].
  unfold upsert_all at 1. cbn [foldl List.filter].
  fold (upsert_all ops (upsert op (d :: rest))).
  destruct (hits d op) eqn:Hh; cbn [negb].
  - rewrite (upsert_hit _ _ _ Hh), (IH _ _ Hops).
    destruct (filter_ext_hits d (set_fields op ∪ d) ops
                (key_after_hit op d Hop Hh)) as [-> ->].
    reflexivity.
  - rewrite (upsert_miss _ _ _ Hh), (IH _ _ Hops). reflexivity.
Qed.

Lemma Forall_filter_consistent (f : UpdateOne -> bool) ops :
  Forall consistent ops -> Forall consistent (List.filter f ops).
Proof.
  rewrite !List.Forall_forall. intros H op Hin.
  apply List.filter_In in Hin as [Hin _]. auto.
Qed.

Lemma filter_length_le {A} (f : A -> bool) l :
  (length (List.filter f l) <= length l)%nat.
Proof. induction l as [|x l IH]; cbn; [lia|]. destruct (f x); cbn; lia. Qed.

(** On an empty collection: by induction on the number of operations. *)
Lemma upsert_all_twice_nil n : forall ops,
  (length ops <= n)%nat ->
  Forall consistent ops ->
  upsert_all ops (upsert_all ops []) = upsert_all ops [].
Proof.
  induction n as [|n IH]; intros ops Hlen Hc.
  - destruct ops; [reflexivity | cbn in Hlen; lia].
  - destruct ops as [|op ops]; [reflexivity|].
    inversion Hc as [|? ? Hop Hops]; subst.
    unfold upsert_all at 2 3. cbn [foldl].
    fold (upsert_all ops (upsert op [])).
    rewrite (upsert_nil op Hop), (upsert_all_cons ops _ _ Hops).
    set (d0 := set_fields op).
    set (d1 := merged (List.filter (hits d0) ops) d0).
    assert (d1 !! "reddit_id" = d0 !! "reddit_id") as E
        by (apply key_after_merged; assumption).
    rewrite (upsert_all_cons (op :: ops) _ _ Hc).
    destruct (filter_ext_hits d0 d1 (op :: ops) E) as [-> ->].
    assert (hits d0 op = true) as Hh by (apply matches_spec; exact Hop).
    cbn [List.filter]. rewrite Hh. cbn [negb]. f_equal.
    + unfold merged at 1. cbn [foldl].
      fold (merged (List.filter (hits d0) ops) (set_fields op ∪ d1)).
      apply merged_first.
    + apply IH.
      * pose proof (filter_length_le (fun op => negb (hits d0 op)) ops).
        cbn in Hlen. lia.
      * now apply Forall_filter_consistent.
Qed.

(** Running the same operations a second time changes nothing. *)
Lemma upsert_all_twice coll : forall ops,
  Forall consistent ops ->
  upsert_all ops (upsert_all ops coll) = upsert_all ops coll.
Proof.
  induction coll as [|d rest IH]; intros ops Hc.
  - now apply (upsert_all_twice_nil (length ops)).
  - rewrite (upsert_all_cons ops d rest Hc).
    set (d1 := merged (List.filter (hits d) ops) d).
    assert (d1 !! "reddit_id" = d !! "reddit_id") as E
        by (apply key_after_merged; assumption).
    rewrite (upsert_all_cons ops d1 _ Hc).
    destruct (filter_ext_hits d d1 ops E) as [-> ->].
    f_equal; [apply merged_idemp|].
    apply IH. now apply Forall_filter_consistent.
Qed.

End DocumentStore.

Section KeyCounts.
Import Loader.

Lemma count_key_cons key d coll :
  count_key key (d :: coll)
  = ((if matches key d then 1 else 0) + count_key key coll)%nat.
Proof. unfold count_key. cbn. now destruct (matches key d). Qed.

(** An upsert adds a document with its key only when there is none. *)
Lemma count_key_upsert op key coll :
  consistent op ->
  count_key key (upsert op coll)
  = if decide (filter_key op = key)
    then Nat.max 1 (count_key key coll)
    else count_key key coll.
Proof.
  intros Hc. induction coll as [|d rest IH].
  - rewrite (upsert_nil op Hc). rewrite count_key_cons. unfold count_key. cbn.
    unfold consistent in Hc. unfold matches. rewrite Hc.
    destruct (decide (filter_key op = key)) as [->|Hne].
    + now rewrite bool_decide_eq_true_2.
    + rewrite bool_decide_eq_false_2 by congruence. reflexivity.
  - destruct (hits d op) eqn:Hh.
    + rewrite (upsert_hit _ _ _ Hh), !count_key_cons.
      rewrite (matches_ext d _ (key_after_hit op d Hc Hh) key).
      destruct (decide (filter_key op = key)) as [<-|Hne]; [|reflexivity].
      unfold hits in Hh. rewrite Hh. lia.
    + rewrite (upsert_miss _ _ _ Hh), !count_key_cons, IH.
      destruct (decide (filter_key op = key)) as [<-|Hne]; [|reflexivity].
      unfold hits in Hh. rewrite Hh. lia.
Qed.

Lemma count_key_upsert_all ops key : forall coll,
  Forall consistent ops ->
  count_key key (upsert_all ops coll)
  = if existsb (fun op => bool_decide (filter_key op = key)) ops
    then Nat.max 1 (count_key key coll)
    else count_key key coll.
Proof.
  induction ops as [|op ops IH]; intros coll Hc; [reflexivity|].
  inversion_clear Hc as [|? ? Hop Hops].
  unfold upsert_all. cbn [foldl existsb].
  fold (upsert_all ops (upsert op coll)).
  rewrite (IH _ Hops), (count_key_upsert _ _ _ Hop).
  destruct (decide (filter_key op = key)) as [E|E].
  - rewrite (bool_decide_eq_true_2 _ E). cbn [orb].
    destruct (existsb _ ops); lia.
  - rewrite (bool_decide_eq_false_2 _ E). reflexivity.
Qed.

End KeyCounts.

Section Batches.
Import Loader.

Lemma bulk_write_collection ops : forall coll,
  (bulk_write ops coll).1 = upsert_all ops coll.
Proof.
  induction ops as [|op ops IH]; intros coll; [reflexivity|].
  change (upsert_all (op :: ops) coll) with (upsert_all ops (upsert op coll)).
  cbn [bulk_write]. unfold upsert.
  destruct (update_one op coll) as [coll1 wr]. cbn [fst].
  rewrite <- IH. now destruct (bulk_write ops coll1) as [coll2 [u m]].
Qed.

Lemma upsert_all_app ops1 ops2 coll :
  upsert_all (ops1 ++ ops2) coll = upsert_all ops2 (upsert_all ops1 coll).
Proof. unfold upsert_all. apply foldl_app. Qed.

Lemma operations_of_keyed batch :
  Forall has_key batch -> operations_of batch = Ok (map operation_of batch).
Proof.
  induction 1 as [|record rest [key Hkey] Hrest IH]; [reflexivity|].
  cbn [operations_of map]. rewrite Hkey, IH. cbn.
  unfold operation_of. now rewrite Hkey.
Qed.

Lemma operation_of_consistent record :
  has_key record -> consistent (operation_of record).
Proof. intros [key Hkey]. unfold consistent, operation_of. cbn. now rewrite Hkey. Qed.

Lemma operations_consistent data :
  Forall has_key data -> Forall consistent (map operation_of data).
Proof.
  intros H. apply List.Forall_map.
  eapply List.Forall_impl; [|exact H]. apply operation_of_consistent.
Qed.

(** The batches that start at [k * batch_size], [(k+1) * batch_size], ...
    upsert, between them, the records from position [k * batch_size] on. *)
Lemma load_batches_collection (data : list doc) (batch_size : Z)
    (inserted updated : string) (c : nat) :
  forall (k : nat) coll stats,
    Forall has_key data ->
    0 < batch_size ->
    (length data <= (k + c) * Z.to_nat batch_size)%nat ->
    (load_batches (map (fun j => Z.of_nat j * batch_size) (seq k c))
       data batch_size inserted updated coll stats).1
    = upsert_all (map operation_of (drop (k * Z.to_nat batch_size) data)) coll.
Proof.
  induction c as [|c IH]; intros k coll stats Hkeys Hpos Hlen.
  - cbn. rewrite drop_ge by lia. reflexivity.
  - cbn [seq map load_batches]. unfold slice.
    replace (Z.to_nat (Z.of_nat k * batch_size))
      with (k * Z.to_nat batch_size)%nat by nia.
    set (b := Z.to_nat batch_size) in *.
    set (rest := drop (k * b) data).
    rewrite (operations_of_keyed (take b rest))
      by (apply Forall_take, Forall_drop, Hkeys).
    pose proof (bulk_write_collection (map operation_of (take b rest)) coll)
      as Hbw.
    destruct (bulk_write _ coll) as [coll' [u m]]. cbn [fst] in Hbw.
    rewrite IH by (try assumption; lia).
    rewrite Hbw. rewrite <- (take_drop b rest) at 2.
    rewrite map_app, upsert_all_app.
    do 2 f_equal. unfold rest. rewrite drop_drop. f_equal. lia.
Qed.

(** With a positive batch size and keyed records, loading upserts every
    record, in order. *)
Lemma load_collection inserted updated data batch_size coll stats :
  Forall has_key data ->
  0 < batch_size ->
  (load inserted updated data batch_size coll stats).1
  = upsert_all (map operation_of data) coll.
Proof.
  intros Hkeys Hpos. unfold load.
  destruct data as [|r data'] eqn:Hd; [reflexivity|]. rewrite <- Hd in *.
  unfold range_from_zero.
  rewrite bool_decide_eq_false_2, bool_decide_eq_false_2 by lia.
  rewrite (load_batches_collection data batch_size inserted updated _ 0%nat)
    by (try assumption;
        pose proof (Z.div_mod (Z.of_nat (length data) + batch_size - 1)
                      batch_size);
        pose proof (Z.mod_pos_bound (Z.of_nat (length data) + batch_size - 1)
                      batch_size);
        nia).
  reflexivity.
Qed.

(** With a batch size that is not positive nothing is written. *)
Lemma load_nothing inserted updated data batch_size coll stats :
  batch_size <= 0 ->
  (load inserted updated data batch_size coll stats).1 = coll.
Proof.
  intros Hle. unfold load. destruct data as [|r data']; [reflexivity|].
  unfold range_from_zero.
  destruct (bool_decide_reflect (batch_size = 0)); [reflexivity|].
  rewrite bool_decide_eq_true_2 by lia. reflexivity.
Qed.

Lemma load_twice inserted updated data batch_size coll stats stats' :
  Forall has_key data ->
  (load inserted updated data batch_size
     (load inserted updated data batch_size coll stats).1 stats').1
  = (load inserted updated data batch_size coll stats).1.
Proof.
  intros Hkeys. destruct (Z_lt_le_dec 0 batch_size) as [Hpos|Hle].
  - rewrite !load_collection by assumption.
    apply upsert_all_twice, operations_consistent, Hkeys.
  - now rewrite !load_nothing by assumption.
Qed.


End Batches.

Section LoadEngine.
Import Loader.

Lemma load_posts_fields posts_data self :
  batch_size (load_posts posts_data self) = batch_size self
  /\ comments_collection (load_posts posts_data self) = comments_collection self
  /\ posts_collection (load_posts posts_data self)
     = (load "posts_inserted" "posts_updated" posts_data (batch_size self)
          (posts_collection self) (stats self)).1.
Proof. unfold load_posts. now destruct (load _ _ _ _ _ _). Qed.

Lemma load_comments_fields comments_data self :
  batch_size (load_comments comments_data self) = batch_size self
  /\ posts_collection (load_comments comments_data self) = posts_collection self
  /\ comments_collection (load_comments comments_data self)
     = (load "comments_inserted" "comments_updated" comments_data
          (batch_size self) (comments_collection self) (stats self)).1.
Proof. unfold load_comments. now destruct (load _ _ _ _ _ _). Qed.

Lemma load_run_fields posts_data comments_data self :
  batch_size (load_run posts_data comments_data self) = batch_size self
  /\ posts_collection (load_run posts_data comments_data self)
     = (load "posts_inserted" "posts_updated" posts_data (batch_size self)
          (posts_collection self) (stats self)).1
  /\ comments_collection (load_run posts_data comments_data self)
     = (load "comments_inserted" "comments_updated" comments_data
          (batch_size self) (comments_collection self)
          (stats (load_posts posts_data self))).1.
Proof.
  unfold load_run.
  destruct (load_posts_fields posts_data self) as (Hb & Hc & Hp).
  destruct (load_comments_fields comments_data (load_posts posts_data self))
    as (Hb' & Hp' & Hc').
  rewrite Hb', Hp', Hc', Hb, Hc, Hp. auto.
Qed.





(** The sample load: the stale document is brought up to date (its extra
    field stays), the two records with key [p1] end as one document. *)
Example sample_load :
  posts_collection (load_posts sample_posts (__init__ 2 stale_store []))
  = [ <["seen" := VBool true]> (post "p2" "second" 3); post "p1" "first" 12 ].
Proof. vm_compute. reflexivity. Qed.

End LoadEngine.
(** ** Statistics snapshots *)

Section Snapshots.
Import Objects.

Lemma dict_copy_detached (a : nat) (h : heap) (items : dict) :
  h !! a = Some items ->
  exists a' h',
    dict_copy a h = Some (a', h')
    /\ a' <> a
    /\ h !! a' = None
    /\ h' = <[a' := items]> h.
Proof.
  intros Ha. unfold dict_copy. rewrite Ha.
  set (a' := fresh (dom h)).
  assert (a' ∉ dom h) as Hfresh by apply is_fresh.
  exists a', (<[a' := items]> h). split; [reflexivity|].
  split; [|split; [|reflexivity]].
  - intros ->. apply Hfresh, elem_of_dom. eauto.
  - now apply not_elem_of_dom.
Qed.

(** C10: [get_stats], of the extractor and of the loader alike, returns a
    dict at a new address with the items of [self.stats]. Whatever the
    caller then does to the returned dict, [self.stats] keeps its items;
    and a second [get_stats] right after the first returns a dict with the
    same items as the first. *)
Theorem get_stats_returns_detached_copy
    (stats_at : nat) (h : heap) (items : dict) :
  h !! stats_at = Some items ->
  exists snapshot h',
    extractor_get_stats stats_at h = Some (snapshot, h')
    /\ loader_get_stats stats_at h = Some (snapshot, h')
    /\ snapshot <> stats_at
    /\ h' !! snapshot = Some items
    /\ h' !! stats_at = Some items
    /\ (forall f, mutate f snapshot h' !! stats_at = Some items)
    /\ (exists snapshot2 h'',
          extractor_get_stats stats_at h' = Some (snapshot2, h'')
          /\ loader_get_stats stats_at h' = Some (snapshot2, h'')
          /\ snapshot2 <> snapshot
          /\ h'' !! snapshot2 = h'' !! snapshot
          /\ h'' !! snapshot2 = Some items).
Proof.
  intros Ha. unfold extractor_get_stats, loader_get_stats.
  destruct (dict_copy_detached stats_at h items Ha)
    as (a1 & h1 & Hcopy & Hne & Hnew & ->).
  assert (<[a1 := items]> h !! stats_at = Some items) as Ha1
      by (now rewrite lookup_insert_ne).
  exists a1, (<[a1 := items]> h). rewrite Hcopy.
  split; [reflexivity|]. split; [reflexivity|]. split; [exact Hne|].
  split; [apply lookup_insert_eq|]. split; [exact Ha1|]. split.
  - intros f. unfold mutate. now rewrite lookup_alter_ne.
  - destruct (dict_copy_detached stats_at _ items Ha1)
      as (a2 & h2 & Hcopy2 & Hne2 & Hnew2 & ->).
    exists a2, (<[a2 := items]> (<[a1 := items]> h)). rewrite Hcopy2.
    split; [reflexivity|]. split; [reflexivity|].
    assert (a2 <> a1) as Hne21.
    { intros ->. rewrite lookup_insert_eq in Hnew2. discriminate. }
    split; [exact Hne21|].
    rewrite lookup_insert_eq, lookup_insert_ne, lookup_insert_eq by congruence.
    split; reflexivity.
Qed.

Lemma get_stats_returns_detached_copy_witness :
  exists snapshot h',
    extractor_get_stats 0 sample_heap = Some (snapshot, h')
    /\ loader_get_stats 0 sample_heap = Some (snapshot, h')
    /\ snapshot <> 0%nat
    /\ h' !! snapshot = Some Extractor.initial_stats
    /\ h' !! 0%nat = Some Extractor.initial_stats
    /\ (forall f, mutate f snapshot h' !! 0%nat = Some Extractor.initial_stats)
    /\ (exists snapshot2 h'',
          extractor_get_stats 0 h' = Some (snapshot2, h'')
          /\ loader_get_stats 0 h' = Some (snapshot2, h'')
          /\ snapshot2 <> snapshot
          /\ h'' !! snapshot2 = h'' !! snapshot
          /\ h'' !! snapshot2 = Some Extractor.initial_stats).
Proof.
  apply (get_stats_returns_detached_copy 0 sample_heap Extractor.initial_stats).
  reflexivity.
Defined.

(** The caller zeroes a counter of the snapshot; the extractor still has
    its own. *)
Example caller_mutation_is_local :
  match extractor_get_stats 0 (mutate (insert "errors" 3) 0 sample_heap) with
  | Some (snapshot, h') =>
      let h'' := mutate (insert "errors" 0) snapshot h' in
      (h'' !! snapshot) ≫= (fun d => d !! "errors") = Some 0
      /\ (h'' !! 0%nat) ≫= (fun d => d !! "errors") = Some 3
  | None => False
  end.
Proof. vm_compute. split; reflexivity. Qed.

End Snapshots.
(** ** Rate Governor: edge behaviour and what it keeps *)

Section RateGovernorMore.
Import Clock RateLimiter.

Lemma filter_nil_Forall (P : Z -> Prop) `{!forall r, Decision (P r)} (l : list Z) :
  filter P l = [] <-> Forall (fun r => ~ P r) l.
Proof.
  induction l as [|r l IH].
  - split; [constructor | reflexivity].
  - rewrite filter_cons. destruct (decide (P r)) as [Hr|Hr].
    + split; [discriminate | intros HF; inversion HF; contradiction].
    + rewrite IH. split; [now constructor | intros HF; now inversion HF].
Qed.

(** X1: [wait_if_needed] raises exactly when the ceiling is not positive and no
    recorded timestamp is younger than a minute (the first call on such a
    limiter, or any call after a minute of silence); what it raises then is
    the [IndexError] of [self.requests[0]]. *)
Theorem wait_if_needed_raises_iff (self : t) (w : world) :
  (wait_if_needed self w = Raise IndexError
   <-> rpm self <= 0
       /\ Forall (fun r => minute <= now w - r) (requests self))
  /\ (forall e, wait_if_needed self w = Raise e -> e = IndexError).
Proof.
  unfold wait_if_needed. cbv zeta.
  set (reqs := filter _ (requests self)).
  assert (reqs = [] <-> Forall (fun r => minute <= now w - r) (requests self))
    as Hnil.
  { unfold reqs. rewrite filter_nil_Forall. apply Forall_proper; [|reflexivity].
    intros r. lia. }
  destruct (bool_decide_reflect (rpm self <= Z.of_nat (length reqs)))
    as [Hfull|Hroom].
  - destruct reqs as [|oldest rest] eqn:Hr; cbn [Py.bind].
    + split; [|now intros e [= <-]].
      split; [intros _|reflexivity]. split; [cbn in Hfull; lia | now apply Hnil].
    + split; [|discriminate].
      split; [discriminate|]. intros [_ Hall]. apply Hnil in Hall. discriminate.
  - cbn [Py.bind]. split; [|discriminate].
    split; [discriminate|]. intros [Hle Hall]. apply Hnil in Hall.
    rewrite Hall in Hroom. cbn in Hroom. lia.
Qed.

(** X2: What a call that returns leaves behind, when no recorded timestamp lies
    in the future: the window is the pruned one followed by [now], all of it
    within the last minute; the counter is one up and the ceiling is
    unchanged; the clock has moved on by at most a minute, and not at all
    when the pruned window was under the ceiling. *)
Theorem wait_if_needed_window (self self' : t) (w w' : world) :
  Forall (fun r => r <= now w) (requests self) ->
  wait_if_needed self w = Ok (self', w') ->
  requests self'
  = filter (fun r => now w - r < minute) (requests self) ++ [now w]
  /\ Forall (fun r => now w - minute < r <= now w) (requests self')
  /\ total_requests self' = total_requests self + 1
  /\ rpm self' = rpm self
  /\ now w <= now w' <= now w + minute
  /\ (Z.of_nat (length (filter (fun r => now w - r < minute) (requests self)))
      < rpm self -> w' = w).
Proof.
  intros Hpast. unfold wait_if_needed. cbv zeta.
  set (reqs := filter _ (requests self)).
  assert (Forall (fun r => now w - minute < r <= now w) reqs) as Hwin.
  { unfold reqs. apply Forall_forall. intros r Hr.
    apply list_elem_of_filter in Hr as [Hrecent Hin].
    rewrite Forall_forall in Hpast. specialize (Hpast r Hin). lia. }
  assert (Forall (fun r => now w - minute < r <= now w) (reqs ++ [now w]))
    as Hwin'.
  { apply Forall_app. split; [exact Hwin|]. constructor; [|constructor].
    unfold minute, second. lia. }
  destruct (bool_decide_reflect (rpm self <= Z.of_nat (length reqs)))
    as [Hfull|Hroom].
  - destruct reqs as [|oldest rest] eqn:Hr; cbn [Py.bind]; [discriminate|].
    apply Forall_cons in Hwin as [Hold _].
    destruct (bool_decide_reflect (0 < minute - (now w - oldest))) as [Hs|Hs];
      intros [= <- <-]; cbn [requests total_requests rpm sleep now];
      (split; [reflexivity|]); (split; [exact Hwin'|]);
      (split; [reflexivity|]); (split; [reflexivity|]);
      (split; [lia|]); cbn [length] in *; lia.
  - cbn [Py.bind]. intros [= <- <-]. cbn [requests total_requests rpm].
    split; [reflexivity|]. split; [exact Hwin'|].
    split; [reflexivity|]. split; [reflexivity|].
    split; [unfold minute, second; lia | reflexivity].
Qed.

Lemma wait_if_needed_window_witness :
  requests {| rpm := 2; requests := [0]; total_requests := 1 |}
  = filter (fun r => now epoch - r < minute) (requests (__init__ 2)) ++ [now epoch]
  /\ Forall (fun r => now epoch - minute < r <= now epoch)
       (requests {| rpm := 2; requests := [0]; total_requests := 1 |})
  /\ total_requests {| rpm := 2; requests := [0]; total_requests := 1 |}
     = total_requests (__init__ 2) + 1
  /\ rpm {| rpm := 2; requests := [0]; total_requests := 1 |} = rpm (__init__ 2)
  /\ now epoch <= now epoch <= now epoch + minute
  /\ (Z.of_nat (length (filter (fun r => now epoch - r < minute)
                          (requests (__init__ 2))))
      < rpm (__init__ 2) -> epoch = epoch).
Proof.
  apply (wait_if_needed_window (__init__ 2)
           {| rpm := 2; requests := [0]; total_requests := 1 |} epoch epoch).
  - constructor.
  - reflexivity.
Defined.

Lemma filter_repeat_recent (t0 : Z) (k : nat) :
  filter (fun r => t0 - r < minute) (repeat t0 k) = repeat t0 k.
Proof.
  induction k as [|k IH]; [reflexivity|]. cbn [repeat].
  rewrite filter_cons_True by (unfold minute, second; lia). now rewrite IH.
Qed.

Lemma back_to_back_under_ceiling (ceiling : Z) (n : nat) :
  forall (k : nat) (total : Z) (w : world),
    Z.of_nat (k + n) <= ceiling ->
    issue_times (repeat 0 n)
      {| rpm := ceiling; requests := repeat (now w) k; total_requests := total |}
      w
    = Ok (repeat (now w) n).
Proof.
  induction n as [|n IH]; intros k total w Hle; [reflexivity|].
  cbn [repeat issue_times]. unfold wait_if_needed. cbv zeta.
  cbn [requests rpm total_requests].
  rewrite filter_repeat_recent.
  rewrite bool_decide_eq_false_2 by (rewrite repeat_length; lia).
  cbn [Py.bind].
  replace (repeat (now w) k ++ [now w]) with (repeat (now w) (S k))
    by (rewrite <- repeat_cons; reflexivity).
  assert (elapse 0 w = w) as ->
    by (destruct w; unfold elapse; cbn; f_equal; lia).
  rewrite IH by lia. reflexivity.
Qed.

(** X3: A burst under the ceiling goes through at once: the first [n] calls of
    a new limiter, [n] at most the ceiling, are all issued at the time of
    the first, without sleeping. *)
Theorem burst_under_ceiling (ceiling : Z) (n : nat) (w : world) :
  Z.of_nat n <= ceiling ->
  back_to_back n (__init__ ceiling) w = Ok (repeat (now w) n).
Proof.
  intros Hle. unfold back_to_back, __init__.
  apply (back_to_back_under_ceiling ceiling n 0 0 w). exact Hle.
Qed.

Lemma burst_under_ceiling_witness :
  back_to_back 60 default epoch = Ok (repeat (now epoch) 60).
Proof. apply (burst_under_ceiling 60 60 epoch). reflexivity. Defined.

End RateGovernorMore.
(** ** Checkpoint Store: clearing, other ids, files of the wrong shape *)

Section CheckpointStoreMore.
Import Checkpoint.

(** [clear] forgets everything, whatever the state was: the file is gone,
    no id is reported as processed, by the manager or by one reloaded from
    the path, and the next [save] starts a list of one. *)
Lemma clear_forgets_everything (self : t) (post_id now_iso : string) :
  file (clear self) = Absent
  /\ is_processed post_id (clear self) = Ok false
  /\ is_processed post_id (__init__ (file (clear self))) = Ok false
  /\ exists s1,
       save now_iso post_id (clear self) = Ok s1
       /\ processed_posts s1 = [JStr post_id].
Proof.
  split; [reflexivity|]. split; [reflexivity|]. split; [reflexivity|].
  eexists. split; reflexivity.
Qed.

(** X4: [save] of one id changes the answer of [is_processed] for no other
    id. *)
Theorem save_leaves_other_ids (self s1 : t) (post_id other now_iso : string) :
  save now_iso post_id self = Ok s1 ->
  other <> post_id ->
  is_processed other s1 = is_processed other self.
Proof.
  unfold save.
  destruct (save_in_memory now_iso post_id (data self)) as [d1|e] eqn:H1;
    [|discriminate].
  cbn. intros [= <-] Hne.
  destruct (save_in_memory_inv _ _ _ _ H1) as (fields & items & Hd & Ha & ->).
  unfold is_processed, listed. cbn [data]. rewrite processed_after_save, Hd.
  unfold getitem. rewrite Ha. cbn [Py.bind contains].
  rewrite existsb_app. cbn [existsb is_str].
  destruct (String.eqb_spec post_id other) as [E|_]; [congruence|].
  now rewrite !orb_false_r.
Qed.

Lemma save_leaves_other_ids_witness :
  is_processed "xyz"
    {| file := Parses (JObj [("processed_posts", JArr [JStr "abc"]);
                             ("last_run", JStr "T1")]);
       data := JObj [("processed_posts", JArr [JStr "abc"]);
                     ("last_run", JStr "T1")] |}
  = is_processed "xyz" (__init__ Absent).
Proof.
  apply (save_leaves_other_ids (__init__ Absent) _ "abc" "xyz" "T1").
  - reflexivity.
  - discriminate.
Defined.

(** X5: A checkpoint file that is valid JSON of the wrong shape is taken as it
    is by [_load]. When it is an object without [processed_posts], every
    [is_processed] and every [save] then raises [KeyError]; when it is not
    an object at all they raise [TypeError]. *)
Theorem wrong_shape_is_loaded_and_raises (doc : json) (post_id now_iso : string) :
  data (__init__ (Parses doc)) = doc
  /\ (forall fields,
        doc = JObj fields ->
        assoc "processed_posts" fields = None ->
        is_processed post_id (__init__ (Parses doc)) = Raise KeyError
        /\ save now_iso post_id (__init__ (Parses doc)) = Raise KeyError)
  /\ ((forall fields, doc <> JObj fields) ->
      is_processed post_id (__init__ (Parses doc)) = Raise TypeError
      /\ save now_iso post_id (__init__ (Parses doc)) = Raise TypeError).
Proof.
  split; [reflexivity|]. split.
  - intros fields -> Ha.
    unfold is_processed, save, save_in_memory, listed, __init__.
    cbn [data _load path_exists read_json getitem]. rewrite Ha. now split.
  - intros Hno. destruct doc; try (now split). now destruct (Hno fields).
Qed.

Lemma wrong_shape_is_loaded_and_raises_witness :
  is_processed "abc" (__init__ (Parses (JObj []))) = Raise KeyError
  /\ save "T1" "abc" (__init__ (Parses (JObj []))) = Raise KeyError.
Proof.
  apply (wrong_shape_is_loaded_and_raises (JObj []) "abc" "T1") with (fields := []);
    reflexivity.
Defined.

(** When [processed_posts] is there but is not a list, [save] raises
    [AttributeError] (there is no [append]) and a string in its place makes
    [is_processed] a substring test. *)
Lemma processed_posts_not_a_list (fields : list (string * json))
    (text post_id now_iso : string) :
  assoc "processed_posts" fields = Some (JStr text) ->
  is_processed post_id (__init__ (Parses (JObj fields)))
  = Ok (str_contains post_id text)
  /\ save now_iso post_id (__init__ (Parses (JObj fields))) = Raise AttributeError.
Proof.
  intros Ha. unfold is_processed, save, save_in_memory, listed, __init__.
  cbn [data _load path_exists read_json getitem]. rewrite Ha. now split.
Qed.

Lemma processed_posts_not_a_list_witness :
  is_processed "bc" (__init__ (Parses (JObj [("processed_posts", JStr "abcd")])))
  = Ok (str_contains "bc" "abcd")
  /\ save "T1" "bc" (__init__ (Parses (JObj [("processed_posts", JStr "abcd")])))
     = Raise AttributeError.
Proof.
  apply (processed_posts_not_a_list [("processed_posts", JStr "abcd")]
           "abcd" "bc" "T1").
  reflexivity.
Defined.

End CheckpointStoreMore.
(** ** Retry Policy: the limiter, the waits of each failure class, the
    error counter *)

Section RetryPolicyMore.
Import Clock Extractor.

Section LoopFacts.
Context {V : Type} (func : Z -> outcome V) (max_retries : Z).

(** The loop touches the statistics only. *)
Lemma retry_loop_components attempts : forall self w,
  rate_limiter (retry_loop func max_retries attempts self w).1.2
  = rate_limiter self
  /\ checkpoint (retry_loop func max_retries attempts self w).1.2
     = checkpoint self.
Proof.
  induction attempts as [|a rest IH]; intros self w; [now split|].
  cbn [retry_loop]. destruct (func a) as [v|[f|]]; [now split | | now split].
  destruct f.
  - apply (IH (incr "rate_limit_waits" 1 self)).
  - apply IH.
  - apply IH.
  - destruct (bool_decide _); [now split | apply IH].
Qed.

(** Server errors on the attempts [i], ..., [max_retries - 1]: a wait of
    30 s after each but the last. *)
Lemma retry_loop_server_errors (n : nat) : forall (i : nat) self w,
  Z.of_nat (i + n) = Z.max 0 max_retries ->
  (forall a, Z.of_nat i <= a < max_retries ->
             func a = Raises (Failure ServerError)) ->
  retry_loop func max_retries (map Z.of_nat (seq i n)) self w
  = (Returned None, self,
     {| now := now w + 30 * second * Z.of_nat (n - 1);
        sleeps := sleeps w ++ repeat (30 * second) (n - 1);
        remote_calls := remote_calls w + n |}).
Proof.
  induction n as [|n IH]; intros i self w Hn Hfail.
  - cbn. destruct w. cbn. rewrite app_nil_r. do 2 f_equal; lia.
  - cbn [seq map retry_loop]. rewrite Hfail by lia.
    destruct (bool_decide_reflect (Z.of_nat i < max_retries - 1)) as [Hlt|Hge].
    + rewrite (IH (S i)) by (try lia; intros a Ha; apply Hfail; lia).
      destruct n as [|n]; [lia|].
      cbn [sleep called now sleeps remote_calls].
      replace (S (S n) - 1)%nat with (S n) by lia.
      replace (S n - 1)%nat with n by lia.
      rewrite <- app_assoc. cbn [app repeat].
      f_equal. f_equal; [unfold second; lia | lia].
    + destruct n as [|n]; [|lia].
      cbn. rewrite app_nil_r. unfold called. do 2 f_equal; lia.
Qed.

(** Request errors: a wait of [2 ** attempt] seconds after each but the
    last. *)
Lemma retry_loop_request_errors (n : nat) : forall (i : nat) self w,
  Z.of_nat (i + n) = Z.max 0 max_retries ->
  (forall a, Z.of_nat i <= a < max_retries ->
             func a = Raises (Failure RequestException)) ->
  exists w',
    retry_loop func max_retries (map Z.of_nat (seq i n)) self w
    = (Returned None, self, w')
    /\ sleeps w'
       = sleeps w ++ map (fun a => 2 ^ Z.of_nat a * second) (seq i (n - 1))
    /\ remote_calls w' = (remote_calls w + n)%nat.
Proof.
  induction n as [|n IH]; intros i self w Hn Hfail.
  - exists w. cbn. rewrite app_nil_r. repeat split; lia.
  - cbn [seq map retry_loop]. rewrite Hfail by lia.
    destruct (bool_decide_reflect (Z.of_nat i < max_retries - 1)) as [Hlt|Hge].
    + destruct (IH (S i) self (sleep (2 ^ Z.of_nat i * second) (called w)))
        as (w' & -> & Hs & Hc); [lia | intros a Ha; apply Hfail; lia |].
      exists w'. split; [reflexivity|]. rewrite Hs, Hc.
      destruct n as [|n]; [lia|].
      replace (S (S n) - 1)%nat with (S n) by lia.
      replace (S n - 1)%nat with n by lia.
      cbn [sleep called sleeps remote_calls seq map].
      rewrite <- app_assoc. split; [reflexivity | lia].
    + destruct n as [|n]; [|lia].
      exists (called w). cbn. rewrite app_nil_r. repeat split; lia.
Qed.

(** The error counter over a run of failures that ends with the last
    attempt: one error when the failure of the last attempt is of the
    [OtherFailure] class, none in every other case. *)
Lemma retry_loop_error_count (n : nat) : forall (i : nat) self w,
  Z.of_nat (i + S n) = max_retries ->
  (forall a, Z.of_nat i <= a < max_retries ->
             exists f, func a = Raises (Failure f)) ->
  (func (max_retries - 1) = Raises (Failure OtherFailure) ->
   stats (retry_loop func max_retries (map Z.of_nat (seq i (S n))) self w).1.2
     !!! "errors"
   = stats self !!! "errors" + 1)
  /\ (func (max_retries - 1) <> Raises (Failure OtherFailure) ->
      stats (retry_loop func max_retries (map Z.of_nat (seq i (S n))) self w).1.2
        !!! "errors"
      = stats self !!! "errors").
Proof.
  induction n as [|n IH]; intros i self w Hn Hfail.
  - assert (Z.of_nat i = max_retries - 1) as Hi by lia.
    destruct (Hfail (Z.of_nat i)) as [f Hf]; [lia|].
    cbn [seq map retry_loop]. rewrite Hf. rewrite <- Hi, Hf.
    destruct f; cbn.
    + split; [discriminate|]. intros _.
      now rewrite lookup_total_insert_ne.
    + split; [discriminate | reflexivity].
    + split; [discriminate | reflexivity].
    + rewrite bool_decide_eq_true_2 by reflexivity. cbn.
      rewrite lookup_total_insert_eq. split; [reflexivity | congruence].
  - destruct (Hfail (Z.of_nat i)) as [f Hf]; [lia|].
    assert (forall a, Z.of_nat (S i) <= a < max_retries ->
                      exists f, func a = Raises (Failure f)) as Hrest
        by (intros a Ha; apply Hfail; lia).
    assert (Z.of_nat (S i + S n) = max_retries) as Hn' by lia.
    remember (S n) as m eqn:Hm.
    cbn [seq map retry_loop]. rewrite Hf.
    destruct f.
    + destruct (IH (S i) (incr "rate_limit_waits" 1 self)
                  (sleep (60 * (Z.of_nat i + 1) * second) (called w)) Hn' Hrest)
        as [H1 H2].
      cbn [incr stats] in H1, H2.
      rewrite lookup_total_insert_ne in H1, H2 by discriminate.
      split; assumption.
    + apply (IH (S i)); assumption.
    + apply (IH (S i)); assumption.
    + rewrite bool_decide_eq_false_2 by lia. apply (IH (S i)); assumption.
Qed.

End LoopFacts.

(** Under [limiter_ok] the call is the retry loop, entered after the
    limiter has let the caller through: the statistics and the checkpoint
    are as before, the limiter (when there is one) has counted one more
    request, and no remote call has been made yet. *)
Lemma api_call_enters_loop {V : Type} (func : Z -> outcome V)
    (max_retries : Z) (self : t) (w : world) :
  limiter_ok self ->
  exists self1 w1 governor_wait,
    _api_call_with_retry func max_retries self w
    = retry_loop func max_retries (range max_retries) self1 w1
    /\ stats self1 = stats self
    /\ checkpoint self1 = checkpoint self
    /\ sleeps w1 = sleeps w ++ governor_wait
    /\ remote_calls w1 = remote_calls w
    /\ match rate_limiter self with
       | Some rl =>
           exists rl',
             rate_limiter self1 = Some rl'
             /\ RateLimiter.total_requests rl' = RateLimiter.total_requests rl + 1
             /\ RateLimiter.rpm rl' = RateLimiter.rpm rl
       | None => rate_limiter self1 = None /\ w1 = w
       end.
Proof.
  intros Hok. unfold _api_call_with_retry.
  destruct (rate_limiter self) as [rl|] eqn:Hrl.
  - pose proof (Hok rl Hrl) as Hpos.
    unfold RateLimiter.wait_if_needed. cbv zeta.
    set (reqs := filter _ (RateLimiter.requests rl)).
    destruct (bool_decide_reflect (RateLimiter.rpm rl <= Z.of_nat (length reqs)))
      as [Hfull|Hroom].
    + destruct reqs as [|oldest rest]; [cbn in Hfull; lia|]. cbn [Py.bind].
      destruct (bool_decide_reflect (0 < minute - (now w - oldest))).
      * do 3 eexists. split; [reflexivity|]. cbn.
        repeat split; try reflexivity. eexists. repeat split; reflexivity.
      * do 2 eexists. exists []. split; [reflexivity|]. cbn.
        rewrite app_nil_r. repeat split; try reflexivity.
        eexists. repeat split; reflexivity.
    + cbn [Py.bind]. do 2 eexists. exists []. split; [reflexivity|]. cbn.
      rewrite app_nil_r. repeat split; try reflexivity.
      eexists. repeat split; reflexivity.
  - exists self, w, []. rewrite app_nil_r, Hrl. repeat split; reflexivity.
Qed.

(** X6: The rate limiter is passed once per call, however many attempts the
    call then makes and however they end: its request counter is one up,
    its ceiling is the same, and the checkpoint is not touched. *)
Theorem limiter_passed_once_per_call {V : Type} (func : Z -> outcome V)
    (max_retries : Z) (self : t) (w : world) (rl : RateLimiter.t) :
  limiter_ok self ->
  rate_limiter self = Some rl ->
  exists rl',
    rate_limiter (_api_call_with_retry func max_retries self w).1.2 = Some rl'
    /\ RateLimiter.total_requests rl' = RateLimiter.total_requests rl + 1
    /\ RateLimiter.rpm rl' = RateLimiter.rpm rl
    /\ checkpoint (_api_call_with_retry func max_retries self w).1.2
       = checkpoint self.
Proof.
  intros Hok Hrl.
  destruct (api_call_enters_loop func max_retries self w Hok)
    as (self1 & w1 & pre & -> & _ & Hcp & _ & _ & Hlim).
  rewrite Hrl in Hlim. destruct Hlim as (rl' & Hrl' & Htot & Hrpm).
  destruct (retry_loop_components func max_retries (range max_retries) self1 w1)
    as [-> ->].
  exists rl'. auto.
Qed.

Lemma limiter_passed_once_per_call_witness :
  exists rl',
    rate_limiter (_api_call_with_retry always_failing 3
                    (__init__ true true Checkpoint.Absent) epoch).1.2 = Some rl'
    /\ RateLimiter.total_requests rl'
       = RateLimiter.total_requests RateLimiter.default + 1
    /\ RateLimiter.rpm rl' = RateLimiter.rpm RateLimiter.default
    /\ checkpoint (_api_call_with_retry always_failing 3
                     (__init__ true true Checkpoint.Absent) epoch).1.2
       = checkpoint (__init__ true true Checkpoint.Absent).
Proof.
  apply (limiter_passed_once_per_call always_failing 3
           (__init__ true true Checkpoint.Absent) epoch RateLimiter.default).
  - intros rl [= <-]. reflexivity.
  - reflexivity.
Defined.

(** X7: With [max_retries] zero or negative the operation is never called: the
    call returns [None] at once, with the statistics as they were. *)
Theorem no_attempts_without_retries {V : Type} (func : Z -> outcome V)
    (max_retries : Z) (self : t) (w : world) :
  limiter_ok self ->
  max_retries <= 0 ->
  exists self' w',
    _api_call_with_retry func max_retries self w = (Returned None, self', w')
    /\ remote_calls w' = remote_calls w
    /\ stats self' = stats self.
Proof.
  intros Hok Hle.
  destruct (api_call_enters_loop func max_retries self w Hok)
    as (self1 & w1 & pre & -> & Hst & _ & _ & Hc & _).
  unfold range. replace (Z.to_nat max_retries) with 0%nat by lia.
  exists self1, w1. auto.
Qed.

Lemma no_attempts_without_retries_witness :
  exists self' w',
    _api_call_with_retry throttled_twice 0
      (__init__ true true Checkpoint.Absent) epoch
    = (Returned None, self', w')
    /\ remote_calls w' = remote_calls epoch
    /\ stats self' = stats (__init__ true true Checkpoint.Absent).
Proof.
  apply (no_attempts_without_retries throttled_twice 0
           (__init__ true true Checkpoint.Absent) epoch).
  - intros rl [= <-]. reflexivity.
  - lia.
Defined.

(** X8: A server error at every attempt: [max_retries] attempts, a wait of 30
    seconds after each but the last, then [None]; no error is counted. *)
Theorem server_errors_wait_thirty_seconds {V : Type} (func : Z -> outcome V)
    (max_retries : Z) (self : t) (w : world) :
  limiter_ok self ->
  (forall attempt, 0 <= attempt < max_retries ->
                   func attempt = Raises (Failure ServerError)) ->
  exists self' w' governor_wait,
    _api_call_with_retry func max_retries self w = (Returned None, self', w')
    /\ sleeps w'
       = sleeps w ++ governor_wait
         ++ repeat (30 * second) (Z.to_nat max_retries - 1)
    /\ remote_calls w' = (remote_calls w + Z.to_nat max_retries)%nat
    /\ stats self' = stats self.
Proof.
  intros Hok Hfail.
  destruct (api_call_enters_loop func max_retries self w Hok)
    as (self1 & w1 & pre & -> & Hst & _ & Hs & Hc & _).
  unfold range.
  rewrite (retry_loop_server_errors func max_retries (Z.to_nat max_retries) 0)
    by (try lia; intros a Ha; apply Hfail; lia).
  do 2 eexists. exists pre. split; [reflexivity|]. cbn [sleeps remote_calls].
  rewrite Hs, Hc, <- app_assoc. auto.
Qed.

Lemma server_errors_wait_thirty_seconds_witness :
  exists self' w' governor_wait,
    _api_call_with_retry
      (fun _ => Raises (Failure ServerError) : outcome string) 3
      (__init__ true true Checkpoint.Absent) epoch
    = (Returned None, self', w')
    /\ sleeps w'
       = sleeps epoch ++ governor_wait ++ repeat (30 * second) (Z.to_nat 3 - 1)
    /\ remote_calls w' = (remote_calls epoch + Z.to_nat 3)%nat
    /\ stats self' = stats (__init__ true true Checkpoint.Absent).
Proof.
  apply (server_errors_wait_thirty_seconds
           (fun _ => Raises (Failure ServerError) : outcome string) 3
           (__init__ true true Checkpoint.Absent) epoch).
  - intros rl [= <-]. reflexivity.
  - reflexivity.
Defined.

Lemma total_powers_of_two (m : nat) :
  total (map (fun a => 2 ^ Z.of_nat a * second) (seq 0 m))
  = (2 ^ Z.of_nat m - 1) * second.
Proof.
  induction m as [|m IH]; [reflexivity|].
  rewrite seq_S, map_app, total_app, IH. cbn [plus map]. unfold total.
  cbn [foldr]. rewrite Nat2Z.inj_succ, Z.pow_succ_r by lia.
  assert (0 < 2 ^ Z.of_nat m) by (apply Z.pow_pos_nonneg; lia).
  unfold second. lia.
Qed.

(** X9: A request error at every attempt: the waits double, 1 s, 2 s, 4 s, ...,
    one after each attempt but the last, [2 ** (max_retries - 1) - 1]
    seconds in all; then [None], and no error is counted. *)
Theorem request_errors_back_off_exponentially {V : Type}
    (func : Z -> outcome V) (max_retries : Z) (self : t) (w : world) :
  limiter_ok self ->
  0 < max_retries ->
  (forall attempt, 0 <= attempt < max_retries ->
                   func attempt = Raises (Failure RequestException)) ->
  exists self' w' governor_wait,
    _api_call_with_retry func max_retries self w = (Returned None, self', w')
    /\ sleeps w'
       = sleeps w ++ governor_wait
         ++ map (fun a => 2 ^ Z.of_nat a * second)
              (seq 0 (Z.to_nat max_retries - 1))
    /\ total_wait w' - total_wait w - total governor_wait
       = (2 ^ (max_retries - 1) - 1) * second
    /\ remote_calls w' = (remote_calls w + Z.to_nat max_retries)%nat
    /\ stats self' = stats self.
Proof.
  intros Hok Hpos Hfail.
  destruct (api_call_enters_loop func max_retries self w Hok)
    as (self1 & w1 & pre & -> & Hst & _ & Hs & Hc & _).
  unfold range.
  destruct (retry_loop_request_errors func max_retries (Z.to_nat max_retries) 0
              self1 w1)
    as (w' & -> & Hs' & Hc'); [lia | intros a Ha; apply Hfail; lia |].
  exists self1, w', pre. split; [reflexivity|].
  rewrite Hs', Hs, <- app_assoc. split; [reflexivity|]. split; [|split; [lia|auto]].
  unfold total_wait. rewrite Hs', Hs, !total_app, total_powers_of_two.
  replace (Z.of_nat (Z.to_nat max_retries - 1)) with (max_retries - 1) by lia.
  lia.
Qed.

Lemma request_errors_back_off_exponentially_witness :
  exists self' w' governor_wait,
    _api_call_with_retry
      (fun _ => Raises (Failure RequestException) : outcome string) 4
      (__init__ true true Checkpoint.Absent) epoch
    = (Returned None, self', w')
    /\ sleeps w'
       = sleeps epoch ++ governor_wait
         ++ map (fun a => 2 ^ Z.of_nat a * second) (seq 0 (Z.to_nat 4 - 1))
    /\ total_wait w' - total_wait epoch - total governor_wait
       = (2 ^ (4 - 1) - 1) * second
    /\ remote_calls w' = (remote_calls epoch + Z.to_nat 4)%nat
    /\ stats self' = stats (__init__ true true Checkpoint.Absent).
Proof.
  apply (request_errors_back_off_exponentially
           (fun _ => Raises (Failure RequestException) : outcome string) 4
           (__init__ true true Checkpoint.Absent) epoch).
  - intros rl [= <-]. reflexivity.
  - lia.
  - reflexivity.
Defined.

(** X10: When every attempt fails, the error counter goes up by one exactly when
    the failure of the last attempt is of the [OtherFailure] class; a
    call exhausted by throttling, server or request errors, or one whose
    other failures came before the last attempt, counts no error. *)
Theorem error_counted_only_for_last_other_failure {V : Type}
    (func : Z -> outcome V) (max_retries : Z) (self : t) (w : world) :
  limiter_ok self ->
  0 < max_retries ->
  (forall attempt, 0 <= attempt < max_retries ->
                   exists f, func attempt = Raises (Failure f)) ->
  (func (max_retries - 1) = Raises (Failure OtherFailure) ->
   stats (_api_call_with_retry func max_retries self w).1.2 !!! "errors"
   = stats self !!! "errors" + 1)
  /\ (func (max_retries - 1) <> Raises (Failure OtherFailure) ->
      stats (_api_call_with_retry func max_retries self w).1.2 !!! "errors"
      = stats self !!! "errors").
Proof.
  intros Hok Hpos Hfail.
  destruct (api_call_enters_loop func max_retries self w Hok)
    as (self1 & w1 & pre & -> & Hst & _).
  unfold range. rewrite <- Hst.
  replace (Z.to_nat max_retries) with (S (Z.to_nat max_retries - 1)) by lia.
  apply (retry_loop_error_count func max_retries (Z.to_nat max_retries - 1) 0);
    [lia | intros a Ha; apply Hfail; lia].
Qed.

Lemma error_counted_only_for_last_other_failure_witness :
  stats (_api_call_with_retry always_failing 3
           (__init__ true true Checkpoint.Absent) epoch).1.2 !!! "errors"
  = stats (__init__ true true Checkpoint.Absent) !!! "errors" + 1.
Proof.
  apply (error_counted_only_for_last_other_failure always_failing 3
           (__init__ true true Checkpoint.Absent) epoch).
  - intros rl [= <-]. reflexivity.
  - lia.
  - intros attempt Ha.
    assert (attempt = 0 \/ attempt = 1 \/ attempt = 2) as [-> | [-> | ->]] by lia;
      eexists; reflexivity.
  - reflexivity.
Defined.

End RetryPolicyMore.
(** ** Depth Resolver: a reply is one deeper than its parent *)

Section DepthResolverMore.
Import Depth.
Variable comment_map : gmap string string.

(** Starting one deeper ends one deeper, unless the ceiling cuts it. *)
Lemma while_loop_one_deeper (n : nat) : forall d p f1 f2 i1 i2,
  0 <= d < max_iterations ->
  max_iterations - d <= Z.of_nat n ->
  max_iterations - d <= Z.of_nat f1 ->
  max_iterations - d - 1 <= Z.of_nat f2 ->
  exists st1 st2 j1 j2,
    while_loop f1 comment_map {| depth := d; current_parent := p |} i1
    = Some (st1, j1)
    /\ while_loop f2 comment_map {| depth := d + 1; current_parent := p |} i2
       = Some (st2, j2)
    /\ depth st2 = Z.min (depth st1 + 1) max_iterations.
Proof.
  induction n as [|n IH]; intros d p f1 f2 i1 i2 Hd Hn Hf1 Hf2; [lia|].
  destruct f1 as [|f1]; [lia|].
  destruct (startswith "t1_" p) eqn:Hp.
  - (* a comment reference *)
    cbn [while_loop].
    assert (loop_guard {| depth := d; current_parent := p |} = true) as ->
        by (apply guard_true_iff; cbn; split; [assumption | lia]).
    unfold loop_body at 1. cbn [current_parent depth].
    destruct (Z.eq_dec (d + 1) max_iterations) as [Htop|Hlow].
    + (* the deeper walk is at the ceiling already *)
      assert (forall q,
                loop_guard {| depth := d + 1; current_parent := q |} = false)
        as Hstop by (intros q; apply guard_false_ceiling; cbn; lia).
      assert (while_loop f2 comment_map
                {| depth := d + 1; current_parent := p |} i2
              = Some ({| depth := d + 1; current_parent := p |}, i2)) as ->
          by (destruct f2; cbn [while_loop]; now rewrite Hstop).
      destruct (comment_map !! replace "t1_" "" p) as [q|].
      * assert (while_loop f1 comment_map
                  {| depth := d + 1; current_parent := q |} (S i1)
                = Some ({| depth := d + 1; current_parent := q |}, S i1)) as ->
            by (destruct f1; cbn [while_loop]; now rewrite Hstop).
        do 4 eexists. split; [reflexivity|]. split; [reflexivity|]. cbn. lia.
      * do 4 eexists. split; [reflexivity|]. split; [reflexivity|]. cbn. lia.
    + destruct f2 as [|f2]; [lia|]. cbn [while_loop].
      assert (loop_guard {| depth := d + 1; current_parent := p |} = true) as ->
          by (apply guard_true_iff; cbn; split; [assumption | lia]).
      unfold loop_body. cbn [current_parent depth].
      destruct (comment_map !! replace "t1_" "" p) as [q|].
      * apply IH; lia.
      * do 4 eexists. split; [reflexivity|]. split; [reflexivity|]. cbn. lia.
  - (* the item, or anything else: both walks stop here *)
    assert (forall e,
              loop_guard {| depth := e; current_parent := p |} = false)
      as Hstop by (intros e; now apply guard_false_item).
    cbn [while_loop]. rewrite Hstop.
    assert (while_loop f2 comment_map
              {| depth := d + 1; current_parent := p |} i2
            = Some ({| depth := d + 1; current_parent := p |}, i2)) as ->
        by (destruct f2; cbn [while_loop]; now rewrite Hstop).
    do 4 eexists. split; [reflexivity|]. split; [reflexivity|]. cbn. lia.
Qed.


End DepthResolverMore.

(** ** Load Engine: what the counters count, what a load never does *)

Section LoadEngineMore.
Import Loader.

Lemma update_one_length op coll :
  length (update_one op coll).1
  = (length coll + (if (update_one op coll).2 is Upserted then 1 else 0))%nat.
Proof.
  induction coll as [|d rest IH]; [reflexivity|].
  cbn [update_one]. destruct (matches (filter_key op) d).
  - cbn. destruct (decide _); lia.
  - destruct (update_one op rest) as [rest' wr]. cbn in *. rewrite IH. lia.
Qed.

Lemma update_one_upserted_new op coll :
  (update_one op coll).2 = Upserted ->
  count_key (filter_key op) coll = 0%nat.
Proof.
  induction coll as [|d rest IH]; [reflexivity|].
  cbn [update_one]. destruct (matches (filter_key op) d) eqn:Hm.
  - cbn. destruct (decide _); discriminate.
  - destruct (update_one op rest) as [rest' wr]. cbn in *.
    intros ->. unfold count_key in *. cbn. rewrite Hm. now apply IH.
Qed.

(** [upserted_count] is the number of documents added; the two counts
    together never exceed the number of operations. *)
Lemma bulk_write_counts ops : forall coll,
  Z.of_nat (length (bulk_write ops coll).1)
  = Z.of_nat (length coll) + (bulk_write ops coll).2.1
  /\ 0 <= (bulk_write ops coll).2.1
  /\ 0 <= (bulk_write ops coll).2.2
  /\ (bulk_write ops coll).2.1 + (bulk_write ops coll).2.2
     <= Z.of_nat (length ops).
Proof.
  induction ops as [|op ops IH]; intros coll; [cbn; lia|].
  cbn [bulk_write]. pose proof (update_one_length op coll) as Hlen.
  destruct (update_one op coll) as [coll1 wr]. cbn [fst snd] in Hlen.
  specialize (IH coll1).
  destruct (bulk_write ops coll1) as [coll2 [u m]]. cbn [fst snd length] in *.
  destruct wr; lia.
Qed.

Lemma incr_same key n stats : incr key n stats !!! key = stats !!! key + n.
Proof. unfold incr. apply lookup_total_insert_eq. Qed.

Lemma incr_other key key' n stats :
  key <> key' -> incr key n stats !!! key' = stats !!! key'.
Proof. intros Hne. unfold incr. now apply lookup_total_insert_ne. Qed.

Section Counters.
Variables (inserted updated : string).
Hypothesis Hiu : inserted <> updated.
Hypothesis Hie : inserted <> "errors".
Hypothesis Hue : updated <> "errors".

Lemma load_batches_counts data batch_size starts : forall coll stats,
  (load_batches starts data batch_size inserted updated coll stats).2 !!! inserted
  - stats !!! inserted
  = Z.of_nat
      (length (load_batches starts data batch_size inserted updated coll stats).1)
    - Z.of_nat (length coll)
  /\ stats !!! updated
     <= (load_batches starts data batch_size inserted updated coll stats).2
          !!! updated
  /\ stats !!! "errors"
     <= (load_batches starts data batch_size inserted updated coll stats).2
          !!! "errors"
     <= stats !!! "errors" + 1.
Proof.
  induction starts as [|i rest IH]; intros coll stats; [cbn; lia|].
  cbn [load_batches]. destruct (operations_of _) as [ops|e].
  - pose proof (bulk_write_counts ops coll) as (Hlen & Hu & Hm & _).
    destruct (bulk_write ops coll) as [coll' [u m]]. cbn [fst snd] in *.
    destruct (IH coll' (incr updated m (incr inserted u stats)))
      as (H1 & H2 & H3).
    rewrite (incr_other updated inserted), incr_same in H1 by congruence.
    rewrite incr_same, (incr_other inserted updated) in H2 by congruence.
    rewrite !incr_other in H3 by congruence.
    repeat split; lia.
  - cbn [fst snd]. rewrite !incr_other by congruence. rewrite incr_same. lia.
Qed.

Lemma load_counts data batch_size coll stats :
  (load inserted updated data batch_size coll stats).2 !!! inserted
  - stats !!! inserted
  = Z.of_nat (length (load inserted updated data batch_size coll stats).1)
    - Z.of_nat (length coll)
  /\ stats !!! updated
     <= (load inserted updated data batch_size coll stats).2 !!! updated
  /\ stats !!! "errors"
     <= (load inserted updated data batch_size coll stats).2 !!! "errors"
     <= stats !!! "errors" + 1.
Proof.
  unfold load. destruct data as [|r data']; [cbn; lia|].
  destruct (range_from_zero _ batch_size) as [starts|e].
  - apply load_batches_counts.
  - cbn [fst snd]. rewrite !incr_other by congruence. rewrite incr_same. lia.
Qed.

End Counters.

Lemma operations_of_consistent batch ops :
  operations_of batch = Ok ops -> Forall consistent ops.
Proof.
  revert ops. induction batch as [|record rest IH]; intros ops.
  - intros [= <-]. constructor.
  - cbn [operations_of]. destruct (record !! "reddit_id") as [key|] eqn:Hkey;
      [|discriminate].
    destruct (operations_of rest) as [ops'|e]; [|discriminate].
    cbn. intros [= <-]. constructor; [exact Hkey | now apply IH].
Qed.

(** Whatever the records and the batch size, what a load does to the
    collection is a sequence of upserts, each of which sets the key it
    filters on. *)
Lemma load_batches_upserts data batch_size inserted updated starts :
  forall coll stats,
    exists ops,
      Forall consistent ops
      /\ (load_batches starts data batch_size inserted updated coll stats).1
         = upsert_all ops coll.
Proof.
  induction starts as [|i rest IH]; intros coll stats.
  - exists []. split; [constructor | reflexivity].
  - cbn [load_batches]. destruct (operations_of _) as [ops|e] eqn:Hops.
    + pose proof (bulk_write_collection ops coll) as Hbw.
      destruct (bulk_write ops coll) as [coll' [u m]]. cbn [fst] in Hbw.
      destruct (IH coll' (incr updated m (incr inserted u stats)))
        as (ops' & Hc' & ->).
      exists (ops ++ ops'). split.
      * apply Forall_app. split; [now apply (operations_of_consistent _ _ Hops)|].
        exact Hc'.
      * now rewrite upsert_all_app, Hbw.
    + exists []. split; [constructor | reflexivity].
Qed.

Lemma load_upserts inserted updated data batch_size coll stats :
  exists ops,
    Forall consistent ops
    /\ (load inserted updated data batch_size coll stats).1 = upsert_all ops coll.
Proof.
  unfold load. destruct data as [|r data'].
  - exists []. split; [constructor | reflexivity].
  - destruct (range_from_zero _ batch_size) as [starts|e].
    + apply load_batches_upserts.
    + exists []. split; [constructor | reflexivity].
Qed.

Lemma upsert_all_count_bounds ops key coll :
  Forall consistent ops ->
  (count_key key coll <= count_key key (upsert_all ops coll))%nat
  /\ (count_key key (upsert_all ops coll) <= Nat.max 1 (count_key key coll))%nat.
Proof.
  intros Hc. rewrite (count_key_upsert_all ops key coll Hc).
  destruct (existsb _ ops); lia.
Qed.

Lemma upsert_length op coll : (length coll <= length (upsert op coll))%nat.
Proof. unfold upsert. rewrite update_one_length. lia. Qed.

Lemma upsert_all_length ops : forall coll,
  (length coll <= length (upsert_all ops coll))%nat.
Proof.
  induction ops as [|op ops IH]; intros coll; [cbn; lia|].
  change (upsert_all (op :: ops) coll) with (upsert_all ops (upsert op coll)).
  pose proof (upsert_length op coll). pose proof (IH (upsert op coll)). lia.
Qed.

Lemma operations_of_missing_key batch :
  Exists (fun record => record !! "reddit_id" = None) batch ->
  operations_of batch = Raise KeyError.
Proof.
  induction batch as [|record rest IH]; intros Hex; [inversion Hex|].
  cbn [operations_of]. destruct (record !! "reddit_id") as [key|] eqn:Hkey;
    [|reflexivity].
  inversion Hex as [? ? Hnone | ? ? Hrest]; subst; [congruence|].
  now rewrite (IH Hrest).
Qed.

Lemma posts_inserted_counts_new (self : t) (data : list doc) :
  stats (load_posts data self) !!! "posts_inserted"
  = stats self !!! "posts_inserted"
    + (Z.of_nat (length (posts_collection (load_posts data self)))
       - Z.of_nat (length (posts_collection self)))
  /\ stats self !!! "errors"
     <= stats (load_posts data self) !!! "errors"
     <= stats self !!! "errors" + 1.
Proof.
  pose proof (load_counts "posts_inserted" "posts_updated"
                ltac:(discriminate) ltac:(discriminate) ltac:(discriminate)
                data (batch_size self) (posts_collection self) (stats self))
    as (H1 & _ & H3).
  unfold load_posts. destruct (load _ _ _ _ _ _) as [coll st].
  cbn [fst snd stats posts_collection] in *. lia.
Qed.

Lemma comments_inserted_counts_new (self : t) (data : list doc) :
  stats (load_comments data self) !!! "comments_inserted"
  = stats self !!! "comments_inserted"
    + (Z.of_nat (length (comments_collection (load_comments data self)))
       - Z.of_nat (length (comments_collection self)))
  /\ stats self !!! "errors"
     <= stats (load_comments data self) !!! "errors"
     <= stats self !!! "errors" + 1.
Proof.
  pose proof (load_counts "comments_inserted" "comments_updated"
                ltac:(discriminate) ltac:(discriminate) ltac:(discriminate)
                data (batch_size self) (comments_collection self) (stats self))
    as (H1 & _ & H3).
  unfold load_comments. destruct (load _ _ _ _ _ _) as [coll st].
  cbn [fst snd stats comments_collection] in *. lia.
Qed.


(** X13: A load never removes a document: for every key there are at least as
    many documents with it after the load as before, and the collections do
    not shrink. This holds for every list of records and every batch
    size. *)
Theorem load_never_removes_documents
    (self : t) (posts_data comments_data : list doc) (key : value) :
  (count_key key (posts_collection self)
   <= count_key key (posts_collection (load_run posts_data comments_data self)))%nat
  /\ (count_key key (comments_collection self)
      <= count_key key
           (comments_collection (load_run posts_data comments_data self)))%nat
  /\ (length (posts_collection self)
      <= length (posts_collection (load_run posts_data comments_data self)))%nat
  /\ (length (comments_collection self)
      <= length (comments_collection (load_run posts_data comments_data self)))%nat.
Proof.
  destruct (load_run_fields posts_data comments_data self) as (_ & -> & ->).
  destruct (load_upserts "posts_inserted" "posts_updated" posts_data
              (batch_size self) (posts_collection self) (stats self))
    as (ops & Hc & ->).
  destruct (load_upserts "comments_inserted" "comments_updated" comments_data
              (batch_size self) (comments_collection self)
              (stats (load_posts posts_data self)))
    as (ops' & Hc' & ->).
  split; [apply upsert_all_count_bounds, Hc|].
  split; [apply upsert_all_count_bounds, Hc'|].
  split; apply upsert_all_length.
Qed.



(** X15: A record without [reddit_id] among the first [batch_size] records
    stops the load before anything is written: the collection is as it was
    and exactly one error is counted. *)
Theorem record_without_key_aborts_load (self : t) (posts_data : list doc) :
  0 < batch_size self ->
  Exists (fun record => record !! "reddit_id" = None)
    (take (Z.to_nat (batch_size self)) posts_data) ->
  posts_collection (load_posts posts_data self) = posts_collection self
  /\ stats (load_posts posts_data self) = incr "errors" 1 (stats self).
Proof.
  intros Hpos Hex. unfold load_posts, load.
  destruct posts_data as [|r rest] eqn:Hd.
  { rewrite take_nil in Hex. inversion Hex. }
  rewrite <- Hd in *. unfold range_from_zero.
  rewrite bool_decide_eq_false_2, bool_decide_eq_false_2 by lia.
  assert (1 <= (Z.of_nat (length posts_data) + batch_size self - 1)
               / batch_size self) as Hq.
  { apply Z.div_le_lower_bound; [lia|]. rewrite Hd. cbn [length]. lia. }
  destruct (Z.to_nat ((Z.of_nat (length posts_data) + batch_size self - 1)
                      / batch_size self)) as [|q] eqn:Hn; [lia|].
  cbn [seq map load_batches]. unfold slice.
  replace (Z.to_nat (Z.of_nat 0 * batch_size self)) with 0%nat by lia.
  change (drop 0 posts_data) with posts_data.
  rewrite (operations_of_missing_key _ Hex). now split.
Qed.

Lemma record_without_key_aborts_load_witness :
  posts_collection
    (load_posts [post "p1" "first" 10; {[ "title" := VStr "no key" ]}]
       (__init__ 100 stale_store []))
  = posts_collection (__init__ 100 stale_store [])
  /\ stats (load_posts [post "p1" "first" 10; {[ "title" := VStr "no key" ]}]
              (__init__ 100 stale_store []))
     = incr "errors" 1 (stats (__init__ 100 stale_store [])).
Proof.
  apply (record_without_key_aborts_load (__init__ 100 stale_store [])
           [post "p1" "first" 10; {[ "title" := VStr "no key" ]}]).
  - reflexivity.
  - right. left. reflexivity.
Defined.

(** X16: A second load of the same keyed records inserts nothing: the
    [posts_inserted] and [comments_inserted] counters stay where the first
    load left them. *)
Theorem second_load_inserts_nothing
    (self : t) (posts_data comments_data : list doc) :
  Forall has_key posts_data ->
  Forall has_key comments_data ->
  stats (load_posts posts_data (load_posts posts_data self)) !!! "posts_inserted"
  = stats (load_posts posts_data self) !!! "posts_inserted"
  /\ stats (load_comments comments_data (load_comments comments_data self))
       !!! "comments_inserted"
     = stats (load_comments comments_data self) !!! "comments_inserted".
Proof.
  intros Hp Hc. split.
  - destruct (posts_inserted_counts_new
                (load_posts posts_data self) posts_data) as [-> _].
    destruct (load_posts_fields posts_data (load_posts posts_data self))
      as (_ & _ & ->).
    destruct (load_posts_fields posts_data self) as (-> & _ & ->).
    rewrite load_twice by exact Hp. lia.
  - destruct (comments_inserted_counts_new
                (load_comments comments_data self) comments_data) as [-> _].
    destruct (load_comments_fields comments_data (load_comments comments_data self))
      as (_ & _ & ->).
    destruct (load_comments_fields comments_data self) as (-> & _ & ->).
    rewrite load_twice by exact Hc. lia.
Qed.

Lemma second_load_inserts_nothing_witness :
  stats (load_posts sample_posts
           (load_posts sample_posts (__init__ 2 stale_store [])))
    !!! "posts_inserted"
  = stats (load_posts sample_posts (__init__ 2 stale_store [])) !!! "posts_inserted"
  /\ stats (load_comments sample_comments
              (load_comments sample_comments (__init__ 2 stale_store [])))
       !!! "comments_inserted"
     = stats (load_comments sample_comments (__init__ 2 stale_store []))
         !!! "comments_inserted".
Proof.
  apply (second_load_inserts_nothing (__init__ 2 stale_store [])
           sample_posts sample_comments);
    repeat constructor; eexists; reflexivity.
Defined.

End LoadEngineMore.
(** ** Extraction driver: complete runs *)

Section CompleteRuns.
Import Checkpoint Driver DriverRuns.
Variables (fetch_comments : bool) (r : remote).

Lemma run_step n st :
  run fetch_comments r (S n) st = run fetch_comments r n (step fetch_comments r st).
Proof. unfold run. apply Nat.iter_succ_r. Qed.

Lemma run_finished n st :
  at_pc st = Finished -> run fetch_comments r n st = st.
Proof.
  intros Hat. induction n as [|n IH]; [reflexivity|].
  rewrite run_step. unfold step. rewrite Hat. exact IH.
Qed.

(** From the head of the loop, one submission takes between one and five
    steps; the loop is then at its head again, one submission further, with
    the post appended when its fields could be read and the checkpoint as
    [item_checkpoint] says. *)
Lemma one_submission st s rest :
  at_pc st = NextItem ->
  pending st = s :: rest ->
  exists (k : nat) st',
    (1 <= k <= 5)%nat
    /\ (forall n, run fetch_comments r (k + n) st = run fetch_comments r n st')
    /\ at_pc st' = NextItem
    /\ pending st' = rest
    /\ idx st' = S (idx st)
    /\ posts_data st'
       = posts_data st
         ++ match get_submission_data r (S (idx st)) s with
            | Some p => [p]
            | None => []
            end
    /\ (checkpoint_data st', disk st')
       = item_checkpoint r (S (idx st)) s (checkpoint_data st) (disk st).
Proof.
  intros Hat Hpend. unfold item_checkpoint.
  assert (step fetch_comments r st
          = match get_submission_data r (S (idx st)) s with
            | None => emit (ItemFailed (sub_id s)) (count_error (take_next rest st))
            | Some p =>
                goto (HaveFields s p)
                  (emit (ItemExtracted (reddit_id p))
                     (add_post p (take_next rest st)))
            end) as H1.
  { unfold step. rewrite Hat, Hpend. reflexivity. }
  destruct (get_submission_data r (S (idx st)) s) as [p|].
  2:{ exists 1%nat. eexists. split; [lia|]. split.
      - intros n. change (1 + n)%nat with (S n). rewrite run_step, H1. reflexivity.
      - cbn. rewrite Hat, app_nil_r. auto 10. }
  set (st1 := goto (HaveFields s p) _) in H1.
  set (st2 := step fetch_comments r st1).
  assert (at_pc st2 = HaveComments s p /\ pending st2 = rest
          /\ idx st2 = S (idx st) /\ posts_data st2 = posts_data st ++ [p]
          /\ checkpoint_data st2 = checkpoint_data st
          /\ disk st2 = disk st) as (A2 & P2 & I2 & D2 & C2 & K2).
  { unfold st2, step. cbn [at_pc st1 goto]. destruct fetch_comments; cbn; auto 10. }
  assert (forall n, run fetch_comments r (2 + n) st = run fetch_comments r n st2)
    as R2.
  { intros n. change (2 + n)%nat with (S (S n)). now rewrite !run_step, H1. }
  rewrite <- C2, <- K2, <- I2.
  destruct (checkpoint_data st2) as [d|] eqn:Hcp.
  2:{ exists 3%nat. eexists. split; [lia|]. split.
      - intros n. change (3 + n)%nat with (S (2 + n)).
        rewrite <- Nat.add_succ_r, R2, run_step. unfold step at 1.
        rewrite A2, Hcp. reflexivity.
      - cbn [at_pc pending idx posts_data checkpoint_data disk goto emit
               count_error set_checkpoint_data set_disk].
        rewrite ?Hcp. auto 10. }
  destruct (save_in_memory (now_iso r (idx st2)) (reddit_id p) d) as [d'|e] eqn:Hs.
  2:{ exists 3%nat. eexists. split; [lia|]. split.
      - intros n. change (3 + n)%nat with (S (2 + n)).
        rewrite <- Nat.add_succ_r, R2, run_step. unfold step at 1.
        rewrite A2, Hcp, Hs. reflexivity.
      - cbn [at_pc pending idx posts_data checkpoint_data disk goto emit
               count_error set_checkpoint_data set_disk].
        rewrite ?Hcp. auto 10. }
  assert (forall n,
            run fetch_comments r (3 + n) st
            = run fetch_comments r n
                (goto SaveInMemory
                   (emit (Checkpointed (reddit_id p)) (set_checkpoint_data d' st2))))
    as R3.
  { intros n. change (3 + n)%nat with (S (2 + n)).
    rewrite <- Nat.add_succ_r, R2, run_step. unfold step at 1.
    rewrite A2, Hcp, Hs. reflexivity. }
  destruct (writable r (idx st2)) eqn:Hw.
  - exists 5%nat. eexists. split; [lia|]. split.
    + intros n. change (5 + n)%nat with (S (S (3 + n))).
      rewrite <- !Nat.add_succ_r, R3, !run_step. unfold step at 2.
      cbn [at_pc goto emit set_checkpoint_data idx]. rewrite Hw.
      unfold step at 1. cbn [at_pc goto checkpoint_data set_disk emit
                               set_checkpoint_data].
      reflexivity.
    + cbn [at_pc pending idx posts_data checkpoint_data disk goto emit
             count_error set_checkpoint_data set_disk].
      rewrite ?Hcp. auto 10.
  - exists 4%nat. eexists. split; [lia|]. split.
    + intros n. change (4 + n)%nat with (S (3 + n)).
      rewrite <- Nat.add_succ_r, R3, run_step. unfold step at 1.
      cbn [at_pc goto emit set_checkpoint_data idx]. rewrite Hw. reflexivity.
    + cbn [at_pc pending idx posts_data checkpoint_data disk goto emit
             count_error set_checkpoint_data set_disk].
      rewrite ?Hcp. auto 10.
Qed.

Lemma run_to_the_end submissions : forall st,
  at_pc st = NextItem ->
  pending st = submissions ->
  exists n,
    (n <= 5 * length submissions + 1)%nat
    /\ at_pc (run fetch_comments r n st) = Finished
    /\ posts_data (run fetch_comments r n st)
       = posts_data st ++ extracted r (idx st) submissions
    /\ (checkpoint_data (run fetch_comments r n st),
        disk (run fetch_comments r n st))
       = checkpoints r (idx st) submissions (checkpoint_data st) (disk st).
Proof.
  induction submissions as [|s rest IH]; intros st Hat Hpend.
  - exists 1%nat. split; [cbn; lia|].
    change 1%nat with (S 0). rewrite run_step. unfold step.
    rewrite Hat, Hpend. cbn. now rewrite app_nil_r.
  - destruct (one_submission st s rest Hat Hpend)
      as (k & st' & Hk & Hrun & Hat' & Hpend' & Hidx & Hposts & Hcp).
    destruct (IH st' Hat' Hpend') as (n & Hn & Hfin & Hdata & Hcps).
    exists (k + n)%nat. rewrite Hrun. split; [cbn [length]; lia|].
    split; [exact Hfin|]. split.
    + rewrite Hdata, Hposts, Hidx, <- app_assoc. f_equal. cbn [extracted].
      now destruct (get_submission_data r (S (idx st)) s).
    + rewrite Hcps, Hidx. cbn [checkpoints]. rewrite <- Hcp. reflexivity.
Qed.

Lemma extracted_ids i submissions :
  sublist (map reddit_id (extracted r i submissions)) (map sub_id submissions).
Proof.
  revert i. induction submissions as [|s rest IH]; intros i; [constructor|].
  cbn [extracted map].
  destruct (get_submission_data r (S i) s) as [p|] eqn:Hp.
  - cbn [map]. rewrite (get_submission_data_id _ _ _ _ Hp). now constructor.
  - now constructor.
Qed.

(** X17: Every run comes to its end, after at most five steps per submission
    and one more, and stays there. The posts returned are those of the
    submissions whose fields could be read, one each, in the order of the
    submissions: their ids are a subsequence of the submissions' ids. *)
Theorem run_completes_with_the_readable_posts
    (use_checkpoints : bool) (f : file_state) (submissions : list submission) :
  exists n,
    (n <= 5 * length submissions + 1)%nat
    /\ at_pc (run fetch_comments r n (start use_checkpoints f submissions))
       = Finished
    /\ (forall m, (n <= m)%nat ->
                  run fetch_comments r m (start use_checkpoints f submissions)
                  = run fetch_comments r n (start use_checkpoints f submissions))
    /\ posts_data (run fetch_comments r n (start use_checkpoints f submissions))
       = extracted r 0 submissions
    /\ sublist
         (map reddit_id
            (posts_data
               (run fetch_comments r n (start use_checkpoints f submissions))))
         (map sub_id submissions).
Proof.
  destruct (run_to_the_end submissions (start use_checkpoints f submissions)
              eq_refl eq_refl) as (n & Hn & Hfin & Hdata & _).
  cbn [posts_data start app idx] in Hdata.
  exists n. split; [exact Hn|]. split; [exact Hfin|]. split; [|split].
  - intros m Hm. replace m with ((m - n) + n)%nat by lia.
    unfold run at 1. rewrite Nat.iter_add.
    fold (run fetch_comments r n (start use_checkpoints f submissions)).
    now apply run_finished.
  - exact Hdata.
  - rewrite Hdata. apply extracted_ids.
Qed.

(** On a well-formed state [save] works: the id saved is listed
    afterwards, the ids listed before still are, and the state is
    well-formed again. *)
Lemma save_in_memory_well_formed now_iso post_id d :
  well_formed d ->
  exists d',
    save_in_memory now_iso post_id d = Ok d'
    /\ well_formed d'
    /\ listed post_id d' = Ok true
    /\ (forall other, listed other d = Ok true -> listed other d' = Ok true).
Proof.
  intros (fields & items & -> & Ha).
  eexists. split; [unfold save_in_memory, getitem; rewrite Ha; reflexivity|].
  split; [|split].
  - do 2 eexists. split; [reflexivity|].
    rewrite assoc_set_field_ne by discriminate. apply assoc_set_field_eq.
  - unfold listed. rewrite processed_after_save. cbn [Py.bind contains].
    now rewrite existsb_snoc_is_str.
  - intros other. unfold listed. rewrite processed_after_save.
    unfold getitem. rewrite Ha. cbn [Py.bind contains]. intros [= H].
    now rewrite existsb_app, H.
Qed.

Lemma checkpoints_list_the_extracted submissions :
  (forall i, writable r i = true) ->
  forall i d dk,
    well_formed d ->
    exists d' dk',
      checkpoints r i submissions (Some d) dk = (Some d', dk')
      /\ well_formed d'
      /\ (forall other, listed other d = Ok true -> listed other d' = Ok true)
      /\ (forall p, p ∈ extracted r i submissions ->
                    listed (reddit_id p) d' = Ok true)
      /\ (dk' = Parses d'
          \/ (extracted r i submissions = [] /\ dk' = dk /\ d' = d)).
Proof.
  intros Hw. induction submissions as [|s rest IH]; intros i d dk Hd.
  - exists d, dk. cbn. split; [reflexivity|]. split; [exact Hd|].
    split; [auto|]. split; [intros p Hp; inversion Hp | auto].
  - cbn [checkpoints extracted]. unfold item_checkpoint.
    destruct (get_submission_data r (S i) s) as [p|].
    + destruct (save_in_memory_well_formed (now_iso r (S i)) (reddit_id p) d Hd)
        as (d1 & -> & Hd1 & Hp1 & Hmono1).
      rewrite Hw.
      destruct (IH (S i) d1 (Parses d1) Hd1)
        as (d' & dk' & -> & Hd' & Hmono & Hall & Hdisk).
      exists d', dk'. split; [reflexivity|]. split; [exact Hd'|].
      split; [auto|]. split.
      * intros q Hq. apply elem_of_cons in Hq as [->|Hq]; auto.
      * left. destruct Hdisk as [->|(_ & -> & ->)]; reflexivity.
    + destruct (IH (S i) d dk Hd) as (d' & dk' & -> & Hd' & Hmono & Hall & Hdisk).
      exists d', dk'. split; [reflexivity|]. split; [exact Hd'|].
      split; [exact Hmono|]. split; [exact Hall|].
      destruct Hdisk as [->|(Hnil & -> & ->)]; auto.
Qed.

(** X18: With checkpoints on, a checkpoint state on which [save] works and a
    file that can be written, a complete run leaves every post it returns
    marked in the file: a restart reports each of them as processed. *)
Theorem complete_run_checkpoints_every_post
    (f : file_state) (submissions : list submission) :
  well_formed (_load f) ->
  (forall i, writable r i = true) ->
  exists n,
    (n <= 5 * length submissions + 1)%nat
    /\ at_pc (run fetch_comments r n (start true f submissions)) = Finished
    /\ forall p,
         p ∈ posts_data (run fetch_comments r n (start true f submissions)) ->
         is_processed (reddit_id p)
           (__init__ (disk (run fetch_comments r n (start true f submissions))))
         = Ok true.
Proof.
  intros Hwf Hw.
  destruct (run_to_the_end submissions (start true f submissions)
              eq_refl eq_refl) as (n & Hn & Hfin & Hdata & Hcp).
  cbn [posts_data start app idx checkpoint_data disk] in Hdata, Hcp.
  destruct (checkpoints_list_the_extracted submissions Hw 0 (_load f) f Hwf)
    as (d' & dk' & Hc & _ & _ & Hall & Hdisk).
  rewrite Hc in Hcp. injection Hcp as _ Hdk.
  exists n. split; [exact Hn|]. split; [exact Hfin|].
  intros p Hp. rewrite Hdata in Hp. unfold is_processed, __init__. cbn [data].
  rewrite Hdk. destruct Hdisk as [->|(Hnil & _)].
  - cbn. now apply Hall.
  - rewrite Hnil in Hp. inversion Hp.
Qed.

End CompleteRuns.

Lemma complete_run_checkpoints_every_post_witness :
  exists n,
    (n <= 5 * length Driver.sample_submissions + 1)%nat
    /\ Driver.at_pc (Driver.run true Driver.sample_remote n
                       (Driver.start true Checkpoint.Absent
                          Driver.sample_submissions))
       = Driver.Finished
    /\ forall p,
         p ∈ Driver.posts_data
               (Driver.run true Driver.sample_remote n
                  (Driver.start true Checkpoint.Absent Driver.sample_submissions)) ->
         Checkpoint.is_processed (Driver.reddit_id p)
           (Checkpoint.__init__
              (Driver.disk
                 (Driver.run true Driver.sample_remote n
                    (Driver.start true Checkpoint.Absent
                       Driver.sample_submissions))))
         = Ok true.
Proof.
  apply (complete_run_checkpoints_every_post true Driver.sample_remote
           Checkpoint.Absent Driver.sample_submissions).
  - do 2 eexists. split; reflexivity.
  - reflexivity.
Defined.

(** ** Comment extraction *)

Section CommentExtraction.
Import CommentTree.

Lemma depth_in_bounds comment_map parent : 0 <= depth_in comment_map parent <= 50.
Proof.
  unfold depth_in, Depth._calculate_comment_depth. cbn [Depth.parent_id].
  destruct (while_loop_total comment_map 50
              {| Depth.depth := 0; Depth.current_parent := parent |} 0%nat)
    as (st' & it' & -> & Hd & _); unfold Depth.max_iterations in *;
    cbn [Depth.depth] in *; lia.
Qed.

Lemma extract_entry_inv max_comment_depth sid comment_map e r :
  extract_entry max_comment_depth sid comment_map e = Some r ->
  entry_id e = Some (reddit_id r)
  /\ entry_parent_id e = Some (parent_id r)
  /\ entry_body e = Some (body r)
  /\ entry_rest_ok e = true
  /\ submission_id r = sid
  /\ depth r = depth_in comment_map (parent_id r)
  /\ (forall m, max_comment_depth = Some m -> depth r <= m).
Proof.
  unfold extract_entry.
  destruct (entry_body e) as [text|]; [|discriminate].
  destruct (entry_parent_id e) as [parent|]; [|discriminate].
  destruct max_comment_depth as [m|].
  - destruct (bool_decide_reflect (m < depth_in comment_map parent));
      [discriminate|].
    destruct (entry_id e) as [i|]; [|discriminate].
    destruct (entry_rest_ok e); [|discriminate].
    intros [= <-]. cbn. repeat split. intros m' [= <-]. lia.
  - destruct (entry_id e) as [i|]; [|discriminate].
    destruct (entry_rest_ok e); [|discriminate].
    intros [= <-]. cbn. repeat split. discriminate.
Qed.

(** X19: Every comment returned comes from an entry of the listing that
    has an id, a parent and a body, and whose record could be built; it
    carries the id of the submission; its depth is the Depth Resolver's
    over the table of the whole listing, between 0 and 50, and not above
    [MAX_COMMENT_DEPTH] when that is set. *)
Theorem collected_comment_is_sound (max_comment_depth : option Z)
    (sid : string) (comment_list : list entry) (r : comment_data) :
  r ∈ collect_comments max_comment_depth sid comment_list ->
  (exists e, e ∈ comment_list
             /\ entry_id e = Some (reddit_id r)
             /\ entry_parent_id e = Some (parent_id r)
             /\ entry_body e = Some (body r)
             /\ entry_rest_ok e = true)
  /\ submission_id r = sid
  /\ depth r = depth_in (comment_map_of comment_list) (parent_id r)
  /\ 0 <= depth r <= 50
  /\ (forall m, max_comment_depth = Some m -> depth r <= m).
Proof.
  unfold collect_comments. intros Hin.
  apply list_elem_of_omap in Hin as (e & He & Hr).
  destruct (extract_entry_inv _ _ _ _ _ Hr) as (Hi & Hp & Hb & Hok & Hs & Hd & Hm).
  split; [now exists e|]. split; [exact Hs|]. split; [exact Hd|].
  split; [rewrite Hd; apply depth_in_bounds | exact Hm].
Qed.

Lemma collected_comment_is_sound_witness :
  depth {| reddit_id := "c"; submission_id := "post"; parent_id := "t1_b";
           depth := 2; body := "reply to reply" |}
  <= 2.
Proof.
  apply (collected_comment_is_sound (Some 2) "post" sample_listing
           {| reddit_id := "c"; submission_id := "post"; parent_id := "t1_b";
              depth := 2; body := "reply to reply" |}).
  - vm_compute. do 2 right. left.
  - reflexivity.
Defined.





Lemma comment_map_of_snoc comment_list e :
  comment_map_of (comment_list ++ [e])
  = add_to_map (comment_map_of comment_list) e.
Proof. unfold comment_map_of. now rewrite foldl_app. Qed.

(** In a listing without repeated ids the table maps each entry's id to
    that entry's parent. *)
Lemma comment_map_of_lookup comment_list :
  NoDup (omap entry_id comment_list) ->
  forall e i p,
    e ∈ comment_list ->
    entry_id e = Some i ->
    entry_parent_id e = Some p ->
    comment_map_of comment_list !! i = Some p.
Proof.
  induction comment_list as [|x l IH] using rev_ind; intros Hnd e i p Hin Hi Hp.
  - inversion Hin.
  - rewrite omap_app in Hnd. apply NoDup_app in Hnd as (Hl & Hdisj & _).
    rewrite comment_map_of_snoc. apply elem_of_app in Hin as [Hin|Hin].
    + specialize (IH Hl e i p Hin Hi Hp). unfold add_to_map.
      destruct (entry_id x) as [j|] eqn:Hj; [|exact IH].
      destruct (entry_parent_id x) as [q|]; [|exact IH].
      rewrite lookup_insert_ne; [exact IH|].
      intros ->. apply (Hdisj i).
      * apply list_elem_of_omap. exists e. now split.
      * cbn. rewrite Hj. left.
    + apply list_elem_of_singleton in Hin as ->. unfold add_to_map.
      rewrite Hi, Hp. apply lookup_insert_eq.
Qed.

Lemma depth_in_one_deeper comment_map child parent :
  startswith "t1_" child = true ->
  comment_map !! replace "t1_" "" child = Some parent ->
  depth_in comment_map child = Z.min (depth_in comment_map parent + 1) 50.
Proof.
  intros Hs Hl. unfold depth_in, Depth._calculate_comment_depth.
  cbn [Depth.parent_id].
  assert (exists f, 50%nat = S f /\ (49 <= f)%nat) as (f & -> & Hf)
      by (exists 49%nat; split; [reflexivity | lia]).
  destruct (while_loop_one_deeper comment_map 50 0 parent (S f) f 0%nat 1%nat)
    as (st1 & st2 & j1 & j2 & H1 & H2 & Hd); unfold Depth.max_iterations; try lia.
  rewrite H1. cbn [Depth.while_loop].
  assert (Depth.loop_guard
            {| Depth.depth := 0; Depth.current_parent := child |} = true) as ->
      by (apply guard_true_iff; cbn; split;
          [assumption | unfold Depth.max_iterations; lia]).
  unfold Depth.loop_body. cbn [Depth.current_parent Depth.depth]. rewrite Hl.
  change (0 + 1) with 1 in *. rewrite H2. exact Hd.
Qed.

(** X21: In the comments extracted from a listing without repeated ids, a reply
    is one deeper than the comment it replies to, up to the ceiling of 50:
    when [child] has [t1_] followed by the id of [parent] as its parent
    reference (and that id does not itself contain [t1_]), its depth is the
    depth of [parent] plus one. *)
Theorem extracted_replies_nest_by_one (max_comment_depth : option Z)
    (sid : string) (comment_list : list entry) (child parent : comment_data) :
  NoDup (omap entry_id comment_list) ->
  child ∈ collect_comments max_comment_depth sid comment_list ->
  parent ∈ collect_comments max_comment_depth sid comment_list ->
  parent_id child = "t1_" +:+ reddit_id parent ->
  str_contains "t1_" (reddit_id parent) = false ->
  depth child = Z.min (depth parent + 1) 50.
Proof.
  unfold collect_comments. intros Hnd Hc Hp Href Hclean.
  apply list_elem_of_omap in Hc as (ec & Hec & Hrc).
  apply list_elem_of_omap in Hp as (ep & Hep & Hrp).
  destruct (extract_entry_inv _ _ _ _ _ Hrc) as (_ & _ & _ & _ & _ & -> & _).
  destruct (extract_entry_inv _ _ _ _ _ Hrp) as (Hi & Hpp & _ & _ & _ & -> & _).
  apply depth_in_one_deeper.
  - now rewrite Href.
  - rewrite Href.
    change (replace "t1_" "" ("t1_" +:+ reddit_id parent))
      with (replace "t1_" "" (reddit_id parent)).
    rewrite (replace_clean _ Hclean).
    now apply (comment_map_of_lookup comment_list Hnd ep).
Qed.

Lemma extracted_replies_nest_by_one_witness :
  depth {| reddit_id := "b"; submission_id := "post"; parent_id := "t1_a";
           depth := 1; body := "reply" |}
  = Z.min (depth {| reddit_id := "a"; submission_id := "post";
                    parent_id := "t3_post"; depth := 0; body := "first" |} + 1)
      50.
Proof.
  apply (extracted_replies_nest_by_one None "post" sample_listing
           {| reddit_id := "b"; submission_id := "post"; parent_id := "t1_a";
              depth := 1; body := "reply" |}
           {| reddit_id := "a"; submission_id := "post";
              parent_id := "t3_post"; depth := 0; body := "first" |}).
  - refine (bool_decide_unpack _ _). vm_compute. exact I.
  - vm_compute. right. left.
  - vm_compute. left.
  - reflexivity.
  - reflexivity.
Defined.

Example sample_listing_depths :
  map (fun r => (reddit_id r, depth r))
    (collect_comments (Some 1) "post" sample_listing)
  = [("a", 0); ("b", 1); ("d", 0)].
Proof. vm_compute. reflexivity. Qed.

End CommentExtraction.
(** ** Fetching submissions *)

Section FetchingSubmissions.
Import Listing.

(** What the inner loop adds, in every case: a subsequence of the listing,
    none of it reported as processed. *)
Lemma scan_sound cp ids breaks : forall acc skipped,
  exists kept,
    (scan cp ids breaks acc skipped).1.1 = acc ++ kept
    /\ sublist kept ids
    /\ (forall c sid, cp = Some c -> sid ∈ kept ->
                      Checkpoint.is_processed sid c = Ok false)
    /\ skipped <= (scan cp ids breaks acc skipped).1.2.
Proof.
  induction ids as [|sid rest IH]; intros acc skipped.
  - exists []. cbn. rewrite app_nil_r.
    repeat split; [constructor | intros c sid _ H; inversion H | lia].
  - cbn [scan]. destruct cp as [c|].
    + destruct (Checkpoint.is_processed sid c) as [[|]|e] eqn:Hp.
      * destruct (IH acc (skipped + 1)) as (kept & -> & Hs & Hk & Hle).
        exists kept. repeat split; [now constructor | exact Hk | lia].
      * destruct (IH (acc ++ [sid]) skipped) as (kept & -> & Hs & Hk & Hle).
        exists (sid :: kept). rewrite <- app_assoc.
        repeat split; [now constructor | | lia].
        intros c' sid' [= <-] Hin. apply elem_of_cons in Hin as [->|Hin];
          [exact Hp | now apply (Hk c)].
      * exists []. cbn. rewrite app_nil_r.
        repeat split; [apply sublist_nil_l | intros c' sid' _ H; inversion H | lia].
    + destruct (IH (acc ++ [sid]) skipped) as (kept & -> & Hs & Hk & Hle).
      exists (sid :: kept). rewrite <- app_assoc.
      repeat split; [now constructor | discriminate | lia].
Qed.

Lemma fetch_sound cp subreddits : forall acc skipped errors,
  exists kept,
    (fetch cp subreddits acc skipped errors).1.1 = acc ++ kept
    /\ sublist kept (all_listed subreddits)
    /\ (forall c sid, cp = Some c -> sid ∈ kept ->
                      Checkpoint.is_processed sid c = Ok false)
    /\ errors <= (fetch cp subreddits acc skipped errors).2
       <= errors + Z.of_nat (length subreddits).
Proof.
  induction subreddits as [|[l|] rest IH]; intros acc skipped errors.
  - exists []. cbn. rewrite app_nil_r.
    repeat split; [constructor | intros c sid _ H; inversion H | lia | lia].
  - cbn [fetch].
    destruct (scan_sound cp (listed_ids l) (breaks l) acc skipped)
      as (kept1 & H1 & Hs1 & Hk1 & _).
    destruct (scan cp (listed_ids l) (breaks l) acc skipped)
      as [[acc' skipped'] raised]. cbn [fst snd] in H1. subst acc'.
    destruct (IH (acc ++ kept1) skipped' (if raised then errors + 1 else errors))
      as (kept2 & -> & Hs2 & Hk2 & Hle).
    exists (kept1 ++ kept2). rewrite <- app_assoc.
    split; [reflexivity|]. split; [|split].
    + unfold all_listed. cbn [omap list_omap fmap option_fmap option_map concat].
      now apply sublist_app.
    + intros c sid Hc Hin. apply elem_of_app in Hin as [Hin|Hin];
        [now apply (Hk1 c) | now apply (Hk2 c)].
    + cbn [length]. destruct raised; lia.
  - cbn [fetch]. destruct (IH acc skipped errors) as (kept & -> & Hs & Hk & Hle).
    exists kept. split; [reflexivity|]. split; [exact Hs|]. split; [exact Hk|].
    cbn [length]. lia.
Qed.







(** The checkpoint lists [abc]: it is left out and counted as skipped. *)
Example sample_fetch :
  (get_submissions sample_subreddits sample_extractor).1 = ["p1"; "p2"; "p3"]
  /\ Extractor.stats (get_submissions sample_subreddits sample_extractor).2
       !! "skipped_checkpoints" = Some 1.
Proof. vm_compute. split; reflexivity. Qed.

End FetchingSubmissions.
(** ** Resuming: a run, then a restart; a checkpoint of the wrong shape *)

Section Resuming.
Import Driver DriverRuns.

(** X24: After a complete run (checkpoints on, a checkpoint state on which
    [save] works, a file that can be written), an extractor started afresh
    on the file the run left never fetches a post of that run again,
    whatever the subreddits list. *)
Theorem restart_skips_the_posts_of_the_run
    (fetch_comments : bool) (r : remote) (f : Checkpoint.file_state)
    (submissions : list submission) :
  well_formed (Checkpoint._load f) ->
  (forall i, writable r i = true) ->
  exists n,
    at_pc (run fetch_comments r n (start true f submissions)) = Finished
    /\ forall (use_rate_limiting : bool) subreddits p,
         p ∈ posts_data (run fetch_comments r n (start true f submissions)) ->
         reddit_id p
         ∉ (Listing.get_submissions subreddits
              (Extractor.__init__ true use_rate_limiting
                 (disk (run fetch_comments r n (start true f submissions))))).1.
Proof.
  intros Hwf Hw.
  destruct (run_to_the_end fetch_comments r submissions
              (start true f submissions) eq_refl eq_refl)
    as (n & _ & Hfin & Hdata & Hcp).
  cbn [posts_data start app idx checkpoint_data disk] in Hdata, Hcp.
  destruct (checkpoints_list_the_extracted r submissions Hw 0
              (Checkpoint._load f) f Hwf)
    as (d' & dk' & Hc & _ & _ & Hall & Hdisk).
  rewrite Hc in Hcp. injection Hcp as _ Hdk.
  exists n. split; [exact Hfin|].
  intros use_rate_limiting subreddits p Hp Hin.
  assert (Checkpoint.is_processed (reddit_id p)
            (Checkpoint.__init__
               (disk (run fetch_comments r n (start true f submissions))))
          = Ok true) as Hmarked.
  { rewrite Hdata in Hp.
    unfold Checkpoint.is_processed, Checkpoint.__init__.
    cbn [Checkpoint.data]. rewrite Hdk.
    destruct Hdisk as [->|(Hnil & _)].
    - cbn. now apply Hall.
    - rewrite Hnil in Hp. inversion Hp. }
  unfold Listing.get_submissions in Hin.
  destruct (fetch_sound
              (Extractor.checkpoint
                 (Extractor.__init__ true use_rate_limiting
                    (disk (run fetch_comments r n (start true f submissions)))))
              subreddits []
              (Extractor.stats
                 (Extractor.__init__ true use_rate_limiting
                    (disk (run fetch_comments r n (start true f submissions))))
                 !!! "skipped_checkpoints")
              (Extractor.stats
                 (Extractor.__init__ true use_rate_limiting
                    (disk (run fetch_comments r n (start true f submissions))))
                 !!! "errors"))
    as (kept & Hacc & _ & Hk & _).
  destruct (Listing.fetch _ subreddits _ _ _) as [[out skipped] errors].
  cbn [fst snd] in Hacc, Hin. subst out. cbn [app] in Hin.
  specialize (Hk _ (reddit_id p) eq_refl Hin). congruence.
Qed.

Lemma restart_skips_the_posts_of_the_run_witness :
  exists n,
    at_pc (run true sample_remote n (start true Checkpoint.Absent sample_submissions))
    = Finished
    /\ forall (use_rate_limiting : bool) subreddits p,
         p ∈ posts_data (run true sample_remote n
                           (start true Checkpoint.Absent sample_submissions)) ->
         reddit_id p
         ∉ (Listing.get_submissions subreddits
              (Extractor.__init__ true use_rate_limiting
                 (disk (run true sample_remote n
                          (start true Checkpoint.Absent sample_submissions))))).1.
Proof.
  apply (restart_skips_the_posts_of_the_run true sample_remote
           Checkpoint.Absent sample_submissions).
  - do 2 eexists. split; reflexivity.
  - reflexivity.
Defined.






End Resuming.
